(** * clanker-input: the input tool, its dialog adapters and question chains

    A shallow embedding of [src/index.ts].  The file follows the source from
    the leaves up: JavaScript string primitives, the regular expressions of
    [generateAnswerKey], the external process runner behind [execAsync], the
    dialog adapters of each platform, [handleChainedQuestions] and the
    tool's [execute] callback.

    Conventions of the model.
    - A JavaScript string is a [string]; each [ascii] stands for one UTF-16
      code unit in the range 0..255.
    - An optional argument ([prompt?: string]) is an [option]; [undefined]
      is [None].
    - A rejected promise or a [throw] is the [Throw] result of the monad
      [M]; [await] is its bind.
    - [answers], a plain object used as a string-keyed map, is an
      association list of own properties in creation order.  Of the
      properties inherited from [Object.prototype] only the accessor
      [__proto__] changes what an assignment does: the assignment runs its
      setter, which ignores a string, and no own property is made.
    - A process started by [execAsync] is described by the exit status
      and the output it ends with; a run in which a process never ends
      leaves the promise unsettled and is outside the model.  Commands are
      taken to hold no NUL character, with which [child_process.exec]
      throws before it starts anything.
    - The calls to [context.logger] have no part in any result and are
      left out. *)

From Stdlib Require Import String Ascii List Bool Arith NArith Lia DecimalString.
Import ListNotations.
Open Scope string_scope.

(** ** JavaScript string primitives *)

Module Js.

(** The characters the source escapes, by code unit. *)
Definition dquote : ascii := ascii_of_nat 34.
Definition squote : ascii := ascii_of_nat 39.
Definition backslash : ascii := ascii_of_nat 92.
Definition newline : ascii := ascii_of_nat 10.
Definition space : ascii := ascii_of_nat 32.

Definition str (c : ascii) : string := String c EmptyString.

(** A string is truthy unless it is empty. *)
Definition truthy (s : string) : bool :=
  match s with EmptyString => false | String _ _ => true end.

(** [o || d] for an optional string [o]: [undefined] and the empty string
    are falsy. *)
Definition orElse (o : option string) (d : string) : string :=
  match o with
  | Some s => if truthy s then s else d
  | None => d
  end.

(** Truthiness of an optional string. *)
Definition truthyOpt (o : option string) : bool :=
  match o with Some s => truthy s | None => false end.

Definition inRange (lo hi n : nat) : bool := Nat.leb lo n && Nat.leb n hi.

(** [\w] without the unicode flag: ASCII letters, digits and underscore. *)
Definition isWordChar (c : ascii) : bool :=
  let n := nat_of_ascii c in
  inRange 65 90 n || inRange 97 122 n || inRange 48 57 n || Nat.eqb n 95.

(** [\s] and the characters [trim] strips, among the code units 0..255:
    TAB, LF, VT, FF, CR, SPACE and NO-BREAK SPACE. *)
Definition isSpaceChar (c : ascii) : bool :=
  let n := nat_of_ascii c in
  inRange 9 13 n || Nat.eqb n 32 || Nat.eqb n 160.

(** [toLowerCase] on one code unit of the range 0..255: A-Z and the
    Latin-1 capitals (0xC0-0xDE but the multiplication sign 0xD7) move up
    by 32.  No other code unit of the range changes. *)
Definition toLowerChar (c : ascii) : ascii :=
  let n := nat_of_ascii c in
  if inRange 65 90 n || (inRange 192 222 n && negb (Nat.eqb n 215))
  then ascii_of_nat (n + 32) else c.

Fixpoint toLowerCase (s : string) : string :=
  match s with
  | EmptyString => EmptyString
  | String c s' => String (toLowerChar c) (toLowerCase s')
  end.

(** Canonicalisation of the [i] flag (no unicode flag): the upper case of
    one code unit.  a-z and the Latin-1 small letters (0xE0-0xFE but the
    division sign 0xF7) move down by 32.  The micro sign and y with
    diaeresis have their capitals above 255 and the sharp s has a capital of
    two code units; they stay as they are here, which no comparison with
    an ASCII character can tell apart. *)
Definition canonicalize (c : ascii) : ascii :=
  let n := nat_of_ascii c in
  if inRange 97 122 n || (inRange 224 254 n && negb (Nat.eqb n 247))
  then ascii_of_nat (n - 32) else c.

(** [s.replace(/c/g, by)] for a one-character pattern. *)
Fixpoint replaceAll (c : ascii) (by_ : string) (s : string) : string :=
  match s with
  | EmptyString => EmptyString
  | String d s' =>
      if Ascii.eqb d c then by_ ++ replaceAll c by_ s'
      else String d (replaceAll c by_ s')
  end.

(** [s.startsWith(p)] and [s.includes(p)]. *)
Fixpoint startsWith (p s : string) : bool :=
  match p, s with
  | EmptyString, _ => true
  | String _ _, EmptyString => false
  | String a p', String b s' => Ascii.eqb a b && startsWith p' s'
  end.

Fixpoint includes (p s : string) : bool :=
  startsWith p s ||
  match s with
  | EmptyString => false
  | String _ s' => includes p s'
  end.

(** [s.trim()]. *)
Fixpoint trimStart (s : string) : string :=
  match s with
  | EmptyString => EmptyString
  | String c s' => if isSpaceChar c then trimStart s' else s
  end.

Fixpoint trimEnd (s : string) : string :=
  match s with
  | EmptyString => EmptyString
  | String c s' =>
      match trimEnd s' with
      | EmptyString => if isSpaceChar c then EmptyString else str c
      | t => String c t
      end
  end.

Definition trim (s : string) : string := trimEnd (trimStart s).

(** [s.split(/\s+/)]: the pieces between maximal runs of white space; a
    leading or trailing run leaves an empty piece, and the empty string
    splits into one empty piece.  [cur] is the piece being read and
    [inRun] says that the previous character was white space. *)
Fixpoint splitSpacesFrom (s cur : string) (inRun : bool) : list string :=
  match s with
  | EmptyString => [cur]
  | String c s' =>
      if isSpaceChar c then
        if inRun then splitSpacesFrom s' cur true
        else cur :: splitSpacesFrom s' EmptyString true
      else splitSpacesFrom s' (cur ++ str c) false
  end.

Definition splitSpaces (s : string) : list string :=
  splitSpacesFrom s EmptyString false.

(** [s.split(c)] for a one-character separator [c]. *)
Fixpoint splitCharFrom (c : ascii) (s cur : string) : list string :=
  match s with
  | EmptyString => [cur]
  | String d s' =>
      if Ascii.eqb d c then cur :: splitCharFrom c s' EmptyString
      else splitCharFrom c s' (cur ++ str d)
  end.

Definition splitChar (c : ascii) (s : string) : list string :=
  splitCharFrom c s EmptyString.

(** [xs.join(sep)]. *)
Fixpoint join (sep : string) (xs : list string) : string :=
  match xs with
  | [] => EmptyString
  | [x] => x
  | x :: xs' => x ++ sep ++ join sep xs'
  end.

(** A non-negative integer in a template literal. *)
Definition ofNat (n : nat) : string :=
  NilEmpty.string_of_uint (Nat.to_uint n).

(** [xs.indexOf(x)], with -1 shifted to [None]. *)
Fixpoint indexOf (x : string) (xs : list string) : option nat :=
  match xs with
  | [] => None
  | y :: xs' =>
      if String.eqb y x then Some 0
      else option_map S (indexOf x xs')
  end.

End Js.

(** ** Regular expressions of [generateAnswerKey]

    The fragment of JavaScript regular expressions the seven patterns use,
    with the backtracking order of the language: alternatives left to
    right, [?] and [+] greedy, the match that starts leftmost.  All seven
    patterns carry the [i] flag. *)

Module Regex.

Inductive regex : Type :=
| Empty                           (* matches the empty string *)
| Char (c : ascii)                (* a literal character *)
| Seq (r1 r2 : regex)             (* r1 r2 *)
| Alt (r1 r2 : regex)             (* r1|r2 *)
| Opt (r : regex)                 (* (?:r)? *)
| Words                           (* \w+ *)
| Group (r : regex).              (* (r), the capture group 1 *)

(** A literal text, character by character. *)
Fixpoint lit (s : string) : regex :=
  match s with
  | EmptyString => Empty
  | String c s' => Seq (Char c) (lit s')
  end.

(** The first [n] characters of [s]. *)
Fixpoint take (n : nat) (s : string) : string :=
  match n, s with
  | S n', String c s' => String c (take n' s')
  | _, _ => EmptyString
  end.

(** What a match from [s] that stops at the suffix [rest] consumed. *)
Definition consumed (s rest : string) : string :=
  take (String.length s - String.length rest) s.

Section Matcher.
Context {A : Type}.

(** [\w*] then the continuation [k], longest first. *)
Fixpoint wordStar (s : string) (k : string -> option A) : option A :=
  match s with
  | String c s' =>
      if Js.isWordChar c then
        match wordStar s' k with
        | Some x => Some x
        | None => k s
        end
      else k s
  | EmptyString => k s
  end.

Definition wordPlus (s : string) (k : string -> option A) : option A :=
  match s with
  | String c s' => if Js.isWordChar c then wordStar s' k else None
  | EmptyString => None
  end.

(** [matchK r s cap k]: match [r] at the start of [s], then run the
    continuation [k] on the rest and on the capture; [None] asks the
    matcher to backtrack. *)
Fixpoint matchK (r : regex) (s : string) (cap : option string)
    (k : string -> option string -> option A) : option A :=
  match r with
  | Empty => k s cap
  | Char c =>
      match s with
      | String d s' =>
          if Ascii.eqb (Js.canonicalize c) (Js.canonicalize d)
          then k s' cap else None
      | EmptyString => None
      end
  | Seq r1 r2 => matchK r1 s cap (fun s1 cap1 => matchK r2 s1 cap1 k)
  | Alt r1 r2 =>
      match matchK r1 s cap k with
      | Some x => Some x
      | None => matchK r2 s cap k
      end
  | Opt r' =>
      match matchK r' s cap k with
      | Some x => Some x
      | None => k s cap
      end
  | Words => wordPlus s (fun s' => k s' cap)
  | Group r' => matchK r' s cap (fun s' _ => k s' (Some (consumed s s')))
  end.
End Matcher.

(** [s.match(r)] for a pattern without the [g] flag: [None] is [null],
    [Some cap] a match whose group 1 is [cap]. *)
Fixpoint exec (r : regex) (s : string) : option (option string) :=
  match matchK r s None (fun _ cap => Some cap) with
  | Some cap => Some cap
  | None =>
      match s with
      | EmptyString => None
      | String _ s' => exec r s'
      end
  end.

End Regex.

(** ** [generateAnswerKey] *)

Import Regex.

(** [/verb (?:a |b )?(\w+)/i]. *)
Definition phrase (verb a b : string) : regex :=
  Seq (lit verb) (Seq (Opt (Alt (lit a) (lit b))) (Group Words)).

Definition patterns : list regex :=
  [ phrase "what is " "your " "the ";
    phrase "enter " "your " "the ";
    phrase "choose " "your " "a ";
    phrase "select " "your " "a ";
    phrase "provide " "your " "the ";
    Seq (Group Words) (Char ":");
    Seq (Group Words) (Char "?") ].

Definition stopWords : list string :=
  ["what"; "enter"; "your"; "the"; "please"; "choose"; "select"].

(** The loop over [patterns]: the first pattern that matches with a
    non-empty group 1 gives the key. *)
Fixpoint firstPatternKey (ps : list regex) (prompt : string) : option string :=
  match ps with
  | [] => None
  | p :: ps' =>
      match exec p prompt with
      | Some (Some g) =>
          if Js.truthy g then Some (Js.toLowerCase g)
          else firstPatternKey ps' prompt
      | _ => firstPatternKey ps' prompt
      end
  end.

Definition significant (w : string) : bool :=
  Nat.ltb 3 (String.length w) && negb (existsb (String.eqb w) stopWords).

Definition generateAnswerKey (prompt : string) (index : nat) : string :=
  match firstPatternKey patterns prompt with
  | Some key => key
  | None =>
      let words := Js.splitSpaces (Js.toLowerCase prompt) in
      Js.orElse (find significant words) ("answer" ++ Js.ofNat (index + 1))
  end.

(** ** External processes and the promise monad

    [execAsync] is [promisify(child_process.exec)].  The host is a
    [Runner]: it answers each invocation, given the invocations made before
    it, with the exit status and the two output streams the process ends
    with.  A run of the tool in which some process never ends (the [read]
    of the terminal adapters waits for a standard input that
    [child_process.exec] never closes) has no final result and corresponds
    to no [Runner]; the statements below are about the invocations made and
    about the results of the processes that end.  As
    in Node.js, [execAsync] resolves with the standard output when the exit
    status is 0, and otherwise rejects with an [Error] whose [message] is
    [Command failed: ] followed by the command, a line feed and the standard
    error, and whose [code] is the exit status. *)

Record Invocation : Type := mkInvocation {
  command : string;
  shell : option string
}.

Record ProcResult : Type := mkProcResult {
  exitStatus : nat;
  stdout : string;
  stderr : string
}.

Definition Trace : Type := list Invocation.

Definition Runner : Type := Trace -> Invocation -> ProcResult.

Record JsError : Type := mkError {
  message : string;
  code : option nat
}.

(** [new Error(msg)]. *)
Definition newError (msg : string) : JsError :=
  {| message := msg; code := None |}.

Inductive Result (A : Type) : Type :=
| Ok (a : A)
| Throw (e : JsError).

Arguments Ok {A} a.
Arguments Throw {A} e.

(** An asynchronous computation: from the invocations made so far to a
    result and the invocations made by its end. *)
Definition M (A : Type) : Type := Trace -> Result A * Trace.

Definition ret {A : Type} (a : A) : M A := fun tr => (Ok a, tr).

Definition throw {A : Type} (e : JsError) : M A := fun tr => (Throw e, tr).

Definition bind {A B : Type} (m : M A) (k : A -> M B) : M B :=
  fun tr =>
    match m tr with
    | (Ok a, tr') => k a tr'
    | (Throw e, tr') => (Throw e, tr')
    end.

(** [try { m } catch (error) { h error }]. *)
Definition tryCatch {A : Type} (m : M A) (h : JsError -> M A) : M A :=
  fun tr =>
    match m tr with
    | (Ok a, tr') => (Ok a, tr')
    | (Throw e, tr') => h e tr'
    end.

Notation "x <- m ;; k" := (bind m (fun x => k))
  (at level 61, m at next level, right associativity).

Definition nl : string := Js.str Js.newline.
Definition Q : string := Js.str Js.dquote.

Section Adapters.

Variable runner : Runner.

Definition execAsync (cmd : string) (sh : option string) : M string :=
  fun tr =>
    let inv := {| command := cmd; shell := sh |} in
    let r := runner tr inv in
    (if Nat.eqb (exitStatus r) 0 then Ok (stdout r)
     else Throw {| message := "Command failed: " ++ cmd ++ nl ++ stderr r;
                   code := Some (exitStatus r) |},
     List.app tr [inv]).

(** *** Escapers *)

(** The four [replace] calls of the AppleScript adapters, in their order:
    backslash, double quote, single quote, line feed. *)
Definition escapeAppleScript (s : string) : string :=
  Js.replaceAll Js.newline " "
    (Js.replaceAll Js.squote ("'" ++ Js.str Js.backslash ++ "''")
      (Js.replaceAll Js.dquote (Js.str Js.backslash ++ Q)
        (Js.replaceAll Js.backslash (Js.str Js.backslash ++ Js.str Js.backslash) s))).

(** [s.replace(/'/g, "''")] of the PowerShell adapters. *)
Definition escapePowerShell (s : string) : string :=
  Js.replaceAll Js.squote "''" s.

(** The [replace] call of the zenity, kdialog and terminal adapters: a
    backslash before each double quote. *)
Definition escapeShell (s : string) : string :=
  Js.replaceAll Js.dquote (Js.str Js.backslash ++ Q) s.

(** The errors the adapters throw when they detect a cancellation. *)
Definition cancelInput : JsError := newError "User cancelled the input dialog".
Definition cancelSelection : JsError := newError "User cancelled the selection dialog".

(** *** macOS *)

Definition showMacOSDialog (prompt : string) (defaultValue title : option string)
    (password : bool) : M string :=
  let escapedPrompt := escapeAppleScript prompt in
  let escapedTitle := escapeAppleScript (Js.orElse title "Input Required") in
  let escapedDefault := escapeAppleScript (Js.orElse defaultValue EmptyString) in
  let script :=
    if password then
      "osascript -e 'tell application " ++ Q ++ "System Events" ++ Q
      ++ " to display dialog " ++ Q ++ escapedPrompt ++ Q
      ++ " default answer " ++ Q ++ Q
      ++ " with title " ++ Q ++ escapedTitle ++ Q
      ++ " with hidden answer' -e 'text returned of result'"
    else
      "osascript -e 'tell application " ++ Q ++ "System Events" ++ Q
      ++ " to display dialog " ++ Q ++ escapedPrompt ++ Q
      ++ " default answer " ++ Q ++ escapedDefault ++ Q
      ++ " with title " ++ Q ++ escapedTitle ++ Q
      ++ "' -e 'text returned of result'" in
  tryCatch
    (out <- execAsync script None ;; ret (Js.trim out))
    (fun error =>
       if Js.includes "User canceled" (message error) then throw cancelInput
       else throw error).

(** [options[0]] of an empty array is [undefined], and calling [replace]
    on it is a [TypeError]. *)
Definition typeErrorReplace : JsError :=
  newError "Cannot read properties of undefined (reading 'replace')".

Definition showMacOSDropdown (prompt : string) (options : list string)
    (defaultValue title : option string) : M string :=
  let escapedPrompt := escapeAppleScript prompt in
  let escapedTitle := escapeAppleScript (Js.orElse title "Select Option") in
  let escapedOptions :=
    Js.join ", " (map (fun opt => Q ++ escapeAppleScript opt ++ Q) options) in
  let defaultOption :=
    if Js.truthyOpt defaultValue then defaultValue else nth_error options 0 in
  match defaultOption with
  | None => throw typeErrorReplace
  | Some defaultOption =>
      let escapedDefault := escapeAppleScript defaultOption in
      let script :=
        "osascript -e 'tell application " ++ Q ++ "System Events" ++ Q
        ++ " to choose from list {" ++ escapedOptions ++ "} with prompt "
        ++ Q ++ escapedPrompt ++ Q ++ " with title " ++ Q ++ escapedTitle ++ Q
        ++ " default items {" ++ Q ++ escapedDefault ++ Q
        ++ "}' -e 'item 1 of result'" in
      tryCatch
        (out <- execAsync script None ;; ret (Js.trim out))
        (fun error =>
           if Js.includes "User canceled" (message error)
           then throw cancelSelection
           else throw error)
  end.

(** *** Windows *)

(** A template literal written over several lines. *)
Definition template (lines : list string) : string := Js.join nl lines.

Definition powershell (script : string) : string :=
  "powershell -Command " ++ Q ++ escapeShell script ++ Q.

Definition showWindowsDialog (prompt : string) (defaultValue title : option string)
    (password : bool) : M string :=
  let escapedPrompt := escapePowerShell prompt in
  let escapedTitle := escapePowerShell (Js.orElse title "Input Required") in
  let escapedDefault := escapePowerShell (Js.orElse defaultValue EmptyString) in
  let script :=
    if password then
      template
        [ EmptyString;
          "            Add-Type -AssemblyName Microsoft.VisualBasic";
          "            $secure = Read-Host '" ++ escapedPrompt ++ "' -AsSecureString";
          "            $BSTR = [System.Runtime.InteropServices.Marshal]::SecureStringToBSTR($secure)";
          "            $plain = [System.Runtime.InteropServices.Marshal]::PtrToStringAuto($BSTR)";
          "            Write-Output $plain";
          "        " ]
    else
      template
        [ EmptyString;
          "            Add-Type -AssemblyName Microsoft.VisualBasic";
          "            [Microsoft.VisualBasic.Interaction]::InputBox('" ++ escapedPrompt
            ++ "', '" ++ escapedTitle ++ "', '" ++ escapedDefault ++ "')";
          "        " ] in
  out <- execAsync (powershell script) None ;;
  let result := Js.trim out in
  if Js.truthy result then ret result else throw cancelInput.

Definition showWindowsDropdown (prompt : string) (options : list string)
    (defaultValue title : option string) : M string :=
  let escapedPrompt := escapePowerShell prompt in
  let escapedTitle := escapePowerShell (Js.orElse title "Select Option") in
  let optionsArray :=
    Js.join "," (map (fun opt => "'" ++ escapePowerShell opt ++ "'") options) in
  let selection :=
    match defaultValue with
    | Some d =>
        if Js.truthy d
        then "$comboBox.SelectedItem = '" ++ escapePowerShell d ++ "'"
        else "$comboBox.SelectedIndex = 0"
    | None => "$comboBox.SelectedIndex = 0"
    end in
  let script :=
    template
      [ EmptyString;
        "        Add-Type -AssemblyName System.Windows.Forms";
        "        Add-Type -AssemblyName System.Drawing";
        "        ";
        "        $form = New-Object System.Windows.Forms.Form";
        "        $form.Text = '" ++ escapedTitle ++ "'";
        "        $form.Size = New-Object System.Drawing.Size(350,200)";
        "        $form.StartPosition = 'CenterScreen'";
        "        ";
        "        $label = New-Object System.Windows.Forms.Label";
        "        $label.Location = New-Object System.Drawing.Point(10,20)";
        "        $label.Size = New-Object System.Drawing.Size(320,40)";
        "        $label.Text = '" ++ escapedPrompt ++ "'";
        "        $form.Controls.Add($label)";
        "        ";
        "        $comboBox = New-Object System.Windows.Forms.ComboBox";
        "        $comboBox.Location = New-Object System.Drawing.Point(10,70)";
        "        $comboBox.Size = New-Object System.Drawing.Size(320,20)";
        "        $comboBox.DropDownStyle = 'DropDownList'";
        "        @(" ++ optionsArray ++ ") | ForEach-Object { $comboBox.Items.Add($_) | Out-Null }";
        "        " ++ selection;
        "        $form.Controls.Add($comboBox)";
        "        ";
        "        $okButton = New-Object System.Windows.Forms.Button";
        "        $okButton.Location = New-Object System.Drawing.Point(175,120)";
        "        $okButton.Size = New-Object System.Drawing.Size(75,23)";
        "        $okButton.Text = 'OK'";
        "        $okButton.DialogResult = [System.Windows.Forms.DialogResult]::OK";
        "        $form.AcceptButton = $okButton";
        "        $form.Controls.Add($okButton)";
        "        ";
        "        $cancelButton = New-Object System.Windows.Forms.Button";
        "        $cancelButton.Location = New-Object System.Drawing.Point(255,120)";
        "        $cancelButton.Size = New-Object System.Drawing.Size(75,23)";
        "        $cancelButton.Text = 'Cancel'";
        "        $cancelButton.DialogResult = [System.Windows.Forms.DialogResult]::Cancel";
        "        $form.CancelButton = $cancelButton";
        "        $form.Controls.Add($cancelButton)";
        "        ";
        "        $form.Topmost = $true";
        "        $result = $form.ShowDialog()";
        "        ";
        "        if ($result -eq [System.Windows.Forms.DialogResult]::OK) {";
        "            Write-Output $comboBox.SelectedItem";
        "        }";
        "    " ] in
  out <- execAsync (powershell script) None ;;
  let result := Js.trim out in
  if Js.truthy result then ret result else throw cancelSelection.

(** *** Linux: zenity, kdialog and the terminal *)

Definition quoted (s : string) : string := Q ++ escapeShell s ++ Q.

(** The test the zenity adapters make on a rejected invocation. *)
Definition zenityCancelled (error : JsError) : bool :=
  Js.includes "code 1" (message error) || Js.includes "code 255" (message error).

(** The test the kdialog adapters make. *)
Definition kdialogCancelled (error : JsError) : bool :=
  Js.includes "code 1" (message error).

(** [args.join(' ')] of [showZenityDialog]. *)
Definition zenityDialogCommand (prompt : string) (defaultValue title : option string)
    (password : bool) : string :=
  let args :=
    List.app
      [ "zenity";
        "--entry";
        "--text=" ++ quoted prompt;
        "--title=" ++ quoted (Js.orElse title "Input Required") ]
      (List.app
         (match defaultValue with
          | Some d => if Js.truthy d then ["--entry-text=" ++ quoted d] else []
          | None => []
          end)
         (if password then ["--hide-text"] else [])) in
  Js.join " " args.

Definition showZenityDialog (prompt : string) (defaultValue title : option string)
    (password : bool) : M string :=
  tryCatch
    (out <- execAsync (zenityDialogCommand prompt defaultValue title password) None ;;
     ret (Js.trim out))
    (fun error =>
       if zenityCancelled error then throw cancelInput else throw error).

Definition showKdialogDialog (prompt : string) (defaultValue title : option string)
    (password : bool) : M string :=
  let args :=
    [ "kdialog";
      if password then "--password" else "--inputbox";
      quoted prompt;
      match defaultValue with
      | Some d => if Js.truthy d then quoted d else Q ++ Q
      | None => Q ++ Q
      end;
      "--title " ++ quoted (Js.orElse title "Input Required") ] in
  tryCatch
    (out <- execAsync (Js.join " " args) None ;; ret (Js.trim out))
    (fun error =>
       if kdialogCancelled error then throw cancelInput else throw error).

Definition bash : option string := Some "/bin/bash".

(** The [script] of [showTerminalInput]. *)
Definition terminalInputScript (prompt : string) (defaultValue : option string)
    (password : bool) : string :=
  let d := Js.orElse defaultValue EmptyString in
  if password then
    "read -s -p " ++ Q ++ escapeShell prompt ++ ": " ++ Q
    ++ " input && echo " ++ Q ++ "$input" ++ Q
  else
    "read -p " ++ Q ++ escapeShell prompt ++ " [" ++ d ++ "]: " ++ Q
    ++ " input && echo " ++ Q ++ "${input:-" ++ d ++ "}" ++ Q.

Definition showTerminalInput (prompt : string) (defaultValue : option string)
    (password : bool) : M string :=
  let script := terminalInputScript prompt defaultValue password in
  tryCatch
    (out <- execAsync script bash ;; ret (Js.trim out))
    (fun _ => throw (newError "Failed to read input from terminal")).

(** The [catch] block of [showLinuxDialog]: kdialog, and the terminal in
    its own [catch] block. *)
Definition kdialogOrTerminal (prompt : string) (defaultValue title : option string)
    (password : bool) : M string :=
  tryCatch
    (_ <- execAsync "which kdialog" None ;;
     showKdialogDialog prompt defaultValue title password)
    (fun _ => showTerminalInput prompt defaultValue password).

Definition showLinuxDialog (prompt : string) (defaultValue title : option string)
    (password : bool) : M string :=
  tryCatch
    (_ <- execAsync "which zenity" None ;;
     showZenityDialog prompt defaultValue title password)
    (fun _ => kdialogOrTerminal prompt defaultValue title password).

Definition showZenityDropdown (prompt : string) (options : list string)
    (defaultValue title : option string) : M string :=
  let args :=
    List.app
      [ "zenity";
        "--list";
        "--radiolist";
        "--text=" ++ quoted prompt;
        "--title=" ++ quoted (Js.orElse title "Select Option");
        "--column=Select";
        "--column=Option" ]
      (flat_map
         (fun opt =>
            [ match defaultValue with
              | Some d => if String.eqb opt d then "TRUE" else "FALSE"
              | None => "FALSE"
              end;
              quoted opt ])
         options) in
  tryCatch
    (out <- execAsync (Js.join " " args) None ;; ret (Js.trim out))
    (fun error =>
       if zenityCancelled error then throw cancelSelection else throw error).

Definition showKdialogDropdown (prompt : string) (options : list string)
    (defaultValue title : option string) : M string :=
  let args :=
    filter Js.truthy
      (List.app
         [ "kdialog"; "--combobox"; quoted prompt ]
         (List.app
            (map quoted options)
            [ "--title " ++ quoted (Js.orElse title "Select Option");
              match defaultValue with
              | Some d => if Js.truthy d then "--default " ++ quoted d else EmptyString
              | None => EmptyString
              end ])) in
  tryCatch
    (out <- execAsync (Js.join " " args) None ;; ret (Js.trim out))
    (fun error =>
       if kdialogCancelled error then throw cancelSelection else throw error).

(** [xs.map((x, idx) => f (idx + 1) x)], from the index [i]. *)
Fixpoint mapNumbered (f : nat -> string -> string) (i : nat) (xs : list string)
    : list string :=
  match xs with
  | [] => []
  | x :: xs' => f (i + 1) x :: mapNumbered f (S i) xs'
  end.

Definition showTerminalDropdown (prompt : string) (options : list string)
    (defaultValue : option string) : M string :=
  let optionsList :=
    Js.join nl (mapNumbered (fun n opt => Js.ofNat n ++ ") " ++ opt) 0 options) in
  let defaultIndex :=
    match defaultValue with
    | Some d =>
        if Js.truthy d then
          match Js.indexOf d options with Some i => i + 1 | None => 0 end
        else 1
    | None => 1
    end in
  let script :=
    template
      [ EmptyString;
        "        echo " ++ quoted prompt;
        "        echo " ++ Q ++ Q;
        "        " ++ Js.join nl (map (fun line => "echo " ++ Q ++ line ++ Q)
                                     (Js.splitChar Js.newline optionsList));
        "        echo " ++ Q ++ Q;
        "        read -p " ++ Q ++ "Select option [" ++ Js.ofNat defaultIndex ++ "]: "
          ++ Q ++ " selection";
        "        selection=${selection:-" ++ Js.ofNat defaultIndex ++ "}";
        "        ";
        "        case $selection in";
        "            " ++ Js.join (nl ++ "            ")
              (mapNumbered (fun n opt => Js.ofNat n ++ ") echo " ++ quoted opt ++ ";;")
                 0 options);
        "            *) echo " ++ Q ++ "Invalid selection" ++ Q ++ " >&2; exit 1;;";
        "        esac";
        "    " ] in
  tryCatch
    (out <- execAsync script bash ;;
     let lines := Js.splitChar Js.newline (Js.trim out) in
     ret (last lines EmptyString))
    (fun _ => throw (newError "Failed to read selection from terminal")).

Definition showLinuxDropdown (prompt : string) (options : list string)
    (defaultValue title : option string) : M string :=
  tryCatch
    (_ <- execAsync "which zenity" None ;;
     showZenityDropdown prompt options defaultValue title)
    (fun _ =>
       tryCatch
         (_ <- execAsync "which kdialog" None ;;
          showKdialogDropdown prompt options defaultValue title)
         (fun _ => showTerminalDropdown prompt options defaultValue)).

(** ** The answers object and the tool's results *)

(** [answers]: the own properties of the object, oldest first. *)
Definition AnswerSet : Type := list (string * string).

(** Defining or updating the own property [key]: an existing property
    keeps its place and takes the new value; a new one is added last. *)
Fixpoint setOwn (key value : string) (answers : AnswerSet) : AnswerSet :=
  match answers with
  | [] => [(key, value)]
  | (k, v) :: rest =>
      if String.eqb k key then (key, value) :: rest
      else (k, v) :: setOwn key value rest
  end.

(** The name of the accessor that [Object.prototype] gives every plain
    object. *)
Definition protoKey : string := "__proto__".

(** [answers[key] = value] for a string [value].  [answers] starts as [{}]
    and only this assignment touches it, so it has no own property
    [__proto__]: an assignment to that key reaches the inherited setter,
    which does nothing for a value that is neither an object nor [null].
    Every other key names a data property (own, or inherited and writable)
    and the assignment sets the own property. *)
Definition setAnswer (key value : string) (answers : AnswerSet) : AnswerSet :=
  if String.eqb key protoKey then answers else setOwn key value answers.

(** The own property [key] of [answers], as [Object.entries] shows it. *)
Fixpoint getAnswer (key : string) (answers : AnswerSet) : option string :=
  match answers with
  | [] => None
  | (k, v) :: rest => if String.eqb k key then Some v else getAnswer key rest
  end.

(** The number of properties named [key]. *)
Definition countKey (key : string) (answers : AnswerSet) : nat :=
  List.length (filter (fun e => String.eqb (fst e) key) answers).

(** A key that is an array index (the canonical decimal form of an integer
    from 0 to 2^32 - 2) is enumerated before the other keys, in ascending
    order. *)
Fixpoint digitsValue (s : string) (acc : N) : option N :=
  match s with
  | EmptyString => Some acc
  | String c s' =>
      let n := nat_of_ascii c in
      if Js.inRange 48 57 n
      then digitsValue s' (10 * acc + N.of_nat (n - 48))%N
      else None
  end.

Definition arrayIndex (key : string) : option N :=
  match key with
  | EmptyString => None
  | String c rest =>
      if Nat.eqb (nat_of_ascii c) 48 then
        if Js.truthy rest then None else Some 0%N
      else
        match digitsValue key 0%N with
        | Some n => if N.leb n 4294967294 then Some n else None
        | None => None
        end
  end.

Fixpoint insertIndexed (n : N) (e : string * string)
    (l : list (N * (string * string))) : list (N * (string * string)) :=
  match l with
  | [] => [(n, e)]
  | (m, e') :: l' =>
      if N.leb n m then (n, e) :: l else (m, e') :: insertIndexed n e l'
  end.

(** [Object.entries(answers)]. *)
Definition entries (answers : AnswerSet) : list (string * string) :=
  let indexed :=
    fold_right
      (fun e acc =>
         match arrayIndex (fst e) with
         | Some n => insertIndexed n e acc
         | None => acc
         end)
      [] answers in
  List.app
    (map snd indexed)
    (filter (fun e => match arrayIndex (fst e) with Some _ => false | None => true end)
       answers).

Inductive ToolData : Type :=
| InputData (input : string)
| AnswersData (answers : AnswerSet) (questionCount : nat)
| PartialData (answeredQuestions : nat) (partialAnswers : AnswerSet).

Record ToolResult : Type := mkToolResult {
  success : bool;
  output : option string;
  error : option string;
  data : option ToolData
}.

(** [{success: false, error: msg}]. *)
Definition failure (msg : string) : ToolResult :=
  {| success := false; output := None; error := Some msg; data := None |}.

(** ** Requests *)

Record Question : Type := mkQuestion {
  q_prompt : option string;
  q_title : option string;
  q_default_value : option string;
  q_type : option string;
  q_password : option bool;
  q_options : option (list string)
}.

Record Args : Type := mkArgs {
  arg_prompt : option string;
  arg_default_value : option string;
  arg_title : option string;
  arg_password : option bool;
  arg_options : option (list string);
  arg_type : option string;
  arg_questions : option (list Question)
}.

(** [!options || options.length === 0]. *)
Definition missingOptions (options : option (list string)) : bool :=
  match options with
  | Some (_ :: _) => false
  | _ => true
  end.

(** [type || (password ? 'password' : 'text')]. *)
Definition inputTypeOf (type : option string) (password : option bool) : string :=
  Js.orElse type
    (match password with Some true => "password" | _ => "text" end).

(** ** The platform switch

    [os.platform()] is a parameter of the host.  The [switch] statement
    stands twice in the source, in [execute] and in
    [handleChainedQuestions], with the same cases; the two differ in the
    titles they pass.  [None] is the [default] case. *)

Variable platform : string.

Definition platformSwitch (inputType prompt : string)
    (options : option (list string)) (default_value : option string)
    (dropdownTitle dialogTitle : option string) : option (M string) :=
  let password := String.eqb inputType "password" in
  let dropdown :=
    match options with
    | Some opts => if String.eqb inputType "dropdown" then Some opts else None
    | None => None
    end in
  if String.eqb platform "darwin" then
    Some match dropdown with
         | Some opts => showMacOSDropdown prompt opts default_value dropdownTitle
         | None => showMacOSDialog prompt default_value dialogTitle password
         end
  else if String.eqb platform "win32" then
    Some match dropdown with
         | Some opts => showWindowsDropdown prompt opts default_value dropdownTitle
         | None => showWindowsDialog prompt default_value dialogTitle password
         end
  else if String.eqb platform "linux" then
    Some match dropdown with
         | Some opts => showLinuxDropdown prompt opts default_value dropdownTitle
         | None => showLinuxDialog prompt default_value dialogTitle password
         end
  else None.

(** ** [handleChainedQuestions] *)

(** What one turn of the [for] loop leaves: the answers so far, or the
    value the function returns from inside the loop. *)
Inductive Step : Type :=
| Continue (answers : AnswerSet)
| Return (result : ToolResult).

(** [error.message.includes('cancelled')]. *)
Definition isCancellation (error : JsError) : bool :=
  Js.includes "cancelled" (message error).

Definition cancelledAt (i : nat) (answers : AnswerSet) : ToolResult :=
  {| success := false;
     output := None;
     error := Some ("User cancelled at question " ++ Js.ofNat (i + 1));
     data := Some (PartialData i answers) |}.

(** The destructuring of [question], with its defaults: [title], and
    [inputType] from [type] and [password]. *)
Definition questionTitle (n i : nat) (question : Question) : string :=
  match q_title question with
  | Some t => t
  | None => "Question " ++ Js.ofNat (i + 1) ++ " of " ++ Js.ofNat n
  end.

Definition questionInputType (question : Question) : string :=
  let type := match q_type question with Some t => t | None => "text" end in
  let password := match q_password question with Some b => b | None => false end in
  inputTypeOf (Some type) (Some password).

Definition missingPrompt (i : nat) : ToolResult :=
  failure ("Question " ++ Js.ofNat (i + 1) ++ " is missing required "
           ++ Q ++ "prompt" ++ Q ++ " field").

Definition missingDropdownOptions (i : nat) : ToolResult :=
  failure ("Question " ++ Js.ofNat (i + 1) ++ ": Dropdown type requires options array").

(** The body of the loop for the question [question] at index [i] of [n]. *)
Definition questionStep (n i : nat) (question : Question) (answers : AnswerSet)
    : M Step :=
  let title := questionTitle n i question in
  match q_prompt question with
  | None => ret (Return (missingPrompt i))
  | Some prompt =>
      if negb (Js.truthy prompt) then ret (Return (missingPrompt i))
      else
        let inputType := questionInputType question in
        if String.eqb inputType "dropdown" && missingOptions (q_options question) then
          ret (Return (missingDropdownOptions i))
        else
          tryCatch
            (match platformSwitch inputType prompt (q_options question)
                     (q_default_value question) (Some title) (Some title) with
             | Some show =>
                 result <- show ;;
                 let key := generateAnswerKey prompt i in
                 ret (Continue (setAnswer key result answers))
             | None => ret (Return (failure ("Unsupported platform: " ++ platform)))
             end)
            (fun error =>
               if isCancellation error then ret (Return (cancelledAt i answers))
               else throw error)
  end.

(** The [for] loop from the index [i] on, over the questions left. *)
Fixpoint chainLoop (n i : nat) (questions : list Question) (answers : AnswerSet)
    : M Step :=
  match questions with
  | [] => ret (Continue answers)
  | question :: rest =>
      s <- questionStep n i question answers ;;
      match s with
      | Continue answers' => chainLoop n (S i) rest answers'
      | Return result => ret (Return result)
      end
  end.

Definition formattedOutput (answers : AnswerSet) : string :=
  Js.join nl (map (fun e => fst e ++ ": " ++ snd e) (entries answers)).

Definition completed (answers : AnswerSet) (n : nat) : ToolResult :=
  {| success := true;
     output := Some (formattedOutput answers);
     error := None;
     data := Some (AnswersData answers n) |}.

Definition handleChainedQuestions (questions : list Question) : M ToolResult :=
  let n := List.length questions in
  s <- chainLoop n 0 questions [] ;;
  match s with
  | Continue answers => ret (completed answers n)
  | Return result => ret result
  end.

(** ** [execute]

    The calls to [context.logger] are left out.  The test of [result]
    against [null] and [undefined] is left out too: every adapter resolves
    with a string. *)

Definition promptRequired : ToolResult :=
  failure ("Either " ++ Q ++ "prompt" ++ Q ++ " or " ++ Q ++ "questions" ++ Q
           ++ " parameter is required").

Definition execute (args : Args) : M ToolResult :=
  match arg_questions args with
  | Some (question :: rest) => handleChainedQuestions (question :: rest)
  | _ =>
      match arg_prompt args with
      | None => ret promptRequired
      | Some prompt =>
          if negb (Js.truthy prompt) then ret promptRequired
          else
            let inputType := inputTypeOf (arg_type args) (arg_password args) in
            if String.eqb inputType "dropdown" && missingOptions (arg_options args) then
              ret (failure "Dropdown type requires options array")
            else
              tryCatch
                (match platformSwitch inputType prompt (arg_options args)
                         (arg_default_value args)
                         (Some (Js.orElse (arg_title args) "Select Option"))
                         (Some (Js.orElse (arg_title args) "Input Required")) with
                 | Some show =>
                     result <- show ;;
                     ret {| success := true;
                            output := Some result;
                            error := None;
                            data := Some (InputData result) |}
                 | None => ret (failure ("Unsupported platform: " ++ platform))
                 end)
                (fun error =>
                   ret (failure ("Failed to show input dialog: " ++ message error)))
      end
  end.

End Adapters.

(** ** Runs of a chain

    The vocabulary the statements about [handleChainedQuestions] use: the
    dialog the loop shows for a question, the run in which every question
    of a list is answered, and the answers such a run leaves. *)

(** The prompt of a question that has one. *)
Definition promptOf (question : Question) : string :=
  Js.orElse (q_prompt question) EmptyString.

(** A question the loop refuses before it shows anything. *)
Definition dropdownWithoutOptions (question : Question) : bool :=
  String.eqb (questionInputType question) "dropdown"
  && missingOptions (q_options question).

(** The dialog [questionStep] shows for the question at index [i] of [n]:
    [None] when a validation refuses the question or the platform has no
    case in the switch. *)
Definition dialogOf (runner : Runner) (platform : string) (n i : nat)
    (question : Question) : option (M string) :=
  if Js.truthyOpt (q_prompt question) && negb (dropdownWithoutOptions question)
  then
    platformSwitch runner platform (questionInputType question) (promptOf question)
      (q_options question) (q_default_value question)
      (Some (questionTitle n i question)) (Some (questionTitle n i question))
  else None.

(** [Answered runner platform n i questions tr kvs tr']: from the trace
    [tr], the dialogs of [questions] (at the indices [i], [i + 1], ...) all
    resolve, one after the other, and leave the trace [tr']; [kvs] pairs the
    derived key of each question with the value its dialog resolved with. *)
Inductive Answered (runner : Runner) (platform : string) (n : nat)
    : nat -> list Question -> Trace -> list (string * string) -> Trace -> Prop :=
| Answered_nil (i : nat) (tr : Trace) :
    Answered runner platform n i [] tr [] tr
| Answered_cons (i : nat) (question : Question) (rest : list Question)
    (show : M string) (value : string) (tr tr1 tr2 : Trace)
    (kvs : list (string * string)) :
    dialogOf runner platform n i question = Some show ->
    show tr = (Ok value, tr1) ->
    Answered runner platform n (S i) rest tr1 kvs tr2 ->
    Answered runner platform n i (question :: rest) tr
      ((generateAnswerKey (promptOf question) i, value) :: kvs) tr2.

(** The object that assigning the pairs [kvs] in order to [answers] builds. *)
Definition collect (kvs : list (string * string)) (answers : AnswerSet) : AnswerSet :=
  fold_left (fun acc kv => setAnswer (fst kv) (snd kv) acc) kvs answers.

(** The value of the last pair of [kvs] whose key is [key]. *)
Fixpoint lastValue (key : string) (kvs : list (string * string)) : option string :=
  match kvs with
  | [] => None
  | (k, v) :: rest =>
      match lastValue key rest with
      | Some later => Some later
      | None => if String.eqb k key then Some v else None
      end
  end.

(** The answers a result carries, complete or partial. *)
Definition answersOf (result : ToolResult) : option AnswerSet :=
  match data result with
  | Some (AnswersData answers _) => Some answers
  | Some (PartialData _ answers) => Some answers
  | _ => None
  end.

(** A fake process runner: the k-th invocation of a run gets the k-th
    scripted result, and status 127 once the script is used up. *)
Definition scripted (results : list ProcResult) : Runner :=
  fun tr _ => nth (List.length tr) results (mkProcResult 127 EmptyString EmptyString).

Definition exits (status : nat) (err : string) : ProcResult :=
  mkProcResult status EmptyString err.

Definition prints (out : string) : ProcResult :=
  mkProcResult 0 out EmptyString.

(** A question with a prompt and nothing else. *)
Definition ask (prompt : string) : Question :=
  mkQuestion (Some prompt) None None None None None.

(** The two availability probes of the Linux adapters. *)
Definition whichZenity : Invocation :=
  {| command := "which zenity"; shell := None |}.

Definition whichKdialog : Invocation :=
  {| command := "which kdialog"; shell := None |}.

(** ** Readers of the target syntaxes

    How each target reads back the text an escaper wrote between its
    quotes; [None] when the text does not read as one plain literal. *)

(** Every line feed becomes one space. *)
Definition foldNewlines (s : string) : string :=
  Js.replaceAll Js.newline " " s.

(** A PowerShell single-quoted literal over the code units 0..255: two
    single quotes stand for one, and a single quote alone ends the literal.
    (PowerShell gives the same role to the typographic quotes U+2018 to
    U+201B, which are not among these code units.) *)
Fixpoint readPowerShell (s : string) : option string :=
  match s with
  | EmptyString => Some EmptyString
  | String c s' =>
      if Ascii.eqb c Js.squote then
        match s' with
        | String d s'' =>
            if Ascii.eqb d Js.squote
            then option_map (String Js.squote) (readPowerShell s'')
            else None
        | EmptyString => None
        end
      else option_map (String c) (readPowerShell s')
  end.

Definition dollar : ascii := ascii_of_nat 36.
Definition backquote : ascii := ascii_of_nat 96.

(** A POSIX shell double-quoted argument: a backslash quotes a following
    dollar sign, backquote, double quote or backslash, joins lines before a
    line feed, and stands for itself before anything else; a bare double
    quote ends the argument, and a bare dollar sign or backquote may start
    an expansion. *)
Fixpoint readShellDouble (s : string) : option string :=
  match s with
  | EmptyString => Some EmptyString
  | String c s' =>
      if Ascii.eqb c Js.backslash then
        match s' with
        | EmptyString => None
        | String d s'' =>
            if Ascii.eqb d dollar || Ascii.eqb d backquote
               || Ascii.eqb d Js.dquote || Ascii.eqb d Js.backslash
            then option_map (String d) (readShellDouble s'')
            else if Ascii.eqb d Js.newline then readShellDouble s''
            else option_map (fun t => String c (String d t)) (readShellDouble s'')
        end
      else if Ascii.eqb c Js.dquote || Ascii.eqb c dollar || Ascii.eqb c backquote
      then None
      else option_map (String c) (readShellDouble s')
  end.

(** Text inside a POSIX shell single-quoted argument, as the [osascript]
    command lines have it: everything stands for itself up to a single
    quote, and the four characters quote, backslash, quote, quote leave the
    argument, add one single quote and enter it again. *)
Fixpoint readShellSingle (s : string) : option string :=
  match s with
  | EmptyString => Some EmptyString
  | String c s' =>
      if Ascii.eqb c Js.squote then
        match s' with
        | String b (String q1 (String q2 s'')) =>
            if Ascii.eqb b Js.backslash && Ascii.eqb q1 Js.squote
               && Ascii.eqb q2 Js.squote
            then option_map (String Js.squote) (readShellSingle s'')
            else None
        | _ => None
        end
      else option_map (String c) (readShellSingle s')
  end.

(** An AppleScript string literal: a backslash quotes a double quote or a
    backslash and writes a line feed, a return or a tab before n, r or t; a
    bare double quote ends the literal. *)
Fixpoint readAppleScript (s : string) : option string :=
  match s with
  | EmptyString => Some EmptyString
  | String c s' =>
      if Ascii.eqb c Js.backslash then
        match s' with
        | EmptyString => None
        | String d s'' =>
            if Ascii.eqb d Js.dquote || Ascii.eqb d Js.backslash
            then option_map (String d) (readAppleScript s'')
            else if Ascii.eqb d "n" then option_map (String Js.newline) (readAppleScript s'')
            else if Ascii.eqb d "r" then option_map (String (ascii_of_nat 13)) (readAppleScript s'')
            else if Ascii.eqb d "t" then option_map (String (ascii_of_nat 9)) (readAppleScript s'')
            else None
        end
      else if Ascii.eqb c Js.dquote then None
      else option_map (String c) (readAppleScript s')
  end.

(** The text of an [osascript] literal, read by the shell and then by
    AppleScript. *)
Definition readOsascript (s : string) : option string :=
  match readShellSingle s with
  | Some t => readAppleScript t
  | None => None
  end.

(** What [osascript] leaves when the user presses Cancel: status 1 and the
    AppleScript error -128 on the standard error. *)
Definition userCanceled : ProcResult :=
  exits 1 "execution error: User canceled. (-128)".

(** A dropdown question without options. *)
Definition pick (prompt : string) : Question :=
  mkQuestion (Some prompt) None None (Some "dropdown") None (Some []).

(** What [escapeAppleScript] writes for one character. *)
Definition escapeAppleScriptChar (c : ascii) : string :=
  if Ascii.eqb c Js.backslash then Js.str Js.backslash ++ Js.str Js.backslash
  else if Ascii.eqb c Js.dquote then Js.str Js.backslash ++ Q
  else if Ascii.eqb c Js.squote then "'" ++ Js.str Js.backslash ++ "''"
  else if Ascii.eqb c Js.newline then " "
  else Js.str c.

(** A computation only adds invocations to the trace. *)
Definition extends {A : Type} (m : M A) : Prop :=
  forall tr : Trace, exists rest : Trace, snd (m tr) = (tr ++ rest)%list.

(** ** Vocabulary of the further properties *)

(** The three platforms the switch has a case for. *)
Definition supported (platform : string) : bool :=
  String.eqb platform "darwin" || String.eqb platform "win32"
  || String.eqb platform "linux".

(** The errors of the two terminal adapters. *)
Definition terminalInputError : JsError :=
  newError "Failed to read input from terminal".

Definition terminalSelectionError : JsError :=
  newError "Failed to read selection from terminal".

(** A question with its [password] field replaced. *)
Definition withPassword (password : option bool) (question : Question) : Question :=
  {| q_prompt := q_prompt question;
     q_title := q_title question;
     q_default_value := q_default_value question;
     q_type := q_type question;
     q_password := password;
     q_options := q_options question |}.

(** No character of the text is white space. *)
Fixpoint noSpace (s : string) : bool :=
  match s with
  | EmptyString => true
  | String c s' => negb (Js.isSpaceChar c) && noSpace s'
  end.

(** No character of the text is [c]. *)
Fixpoint lacks (c : ascii) (s : string) : bool :=
  match s with
  | EmptyString => true
  | String d s' => negb (Ascii.eqb d c) && lacks c s'
  end.

(** A non-empty text of word characters, what [\w+] matches. *)
Fixpoint allWord (s : string) : bool :=
  match s with
  | EmptyString => true
  | String c s' => Js.isWordChar c && allWord s'
  end.

(** The patterns whose groups are all [(\w+)]. *)
Fixpoint groupsAreWords (r : regex) : bool :=
  match r with
  | Group Words => true
  | Group _ => false
  | Seq r1 r2 | Alt r1 r2 => groupsAreWords r1 && groupsAreWords r2
  | Opt r' => groupsAreWords r'
  | _ => true
  end.

(** A computation that makes exactly one invocation, whatever its
    outcome. *)
Definition invokesOnce {A : Type} (m : M A) : Prop :=
  forall tr : Trace, List.length (snd (m tr)) = S (List.length tr).

(** A statement about one character, checked on each of the 256. *)
Ltac each_ascii c :=
  destruct c as [[|] [|] [|] [|] [|] [|] [|] [|]]; reflexivity.

(** One line of the formatted output. *)
Definition outputLine (kv : string * string) : string :=
  fst kv ++ ": " ++ snd kv.

(** * Properties *)

(** ** The key deriver *)

Lemma truthy_toLowerCase (s : string) :
  Js.truthy (Js.toLowerCase s) = Js.truthy s.
Proof. destruct s; reflexivity. Qed.

Lemma truthy_nonempty (s : string) :
  Js.truthy s = true <-> s <> EmptyString.
Proof.
  destruct s; simpl; split; intro H; congruence || reflexivity.
Qed.

Lemma firstPatternKey_truthy (ps : list regex) (prompt key : string) :
  firstPatternKey ps prompt = Some key -> Js.truthy key = true.
Proof.
  induction ps as [|p ps IH]; simpl; [discriminate|].
  destruct (exec p prompt) as [[g|]|]; auto.
  destruct (Js.truthy g) eqn:Hg; auto.
  intros [= <-]. now rewrite truthy_toLowerCase.
Qed.

Lemma orElse_truthy (o : option string) (d : string) :
  Js.truthy d = true -> Js.truthy (Js.orElse o d) = true.
Proof.
  intros Hd. destruct o as [s|]; simpl; auto.
  destruct (Js.truthy s) eqn:Hs; auto.
Qed.

Lemma generateAnswerKey_truthy (prompt : string) (index : nat) :
  Js.truthy (generateAnswerKey prompt index) = true.
Proof.
  unfold generateAnswerKey.
  destruct (firstPatternKey patterns prompt) as [key|] eqn:Hk.
  - eapply firstPatternKey_truthy; eassumption.
  - apply orElse_truthy. reflexivity.
Qed.

(** C3.  The three test vectors of the key deriver: the prompt
    [What is your name?] at index 0 gives [name], [Enter your email:] at
    index 1 gives [email], and [xyz] at index 7 gives [answer8]. *)
Theorem generateAnswerKey_test_vectors :
  generateAnswerKey "What is your name?" 0 = "name"
  /\ generateAnswerKey "Enter your email:" 1 = "email"
  /\ generateAnswerKey "xyz" 7 = "answer8".
Proof. repeat split; vm_compute; reflexivity. Qed.

(** ** The loop of [handleChainedQuestions] *)

Section Chain.

Variable runner : Runner.
Variable platform : string.

Local Abbreviation step := (questionStep runner platform).
Local Abbreviation loop := (chainLoop runner platform).
Local Abbreviation dialog := (dialogOf runner platform).

Lemma bind_Ok {A B : Type} (m : M A) (k : A -> M B) (tr tr' : Trace) (a : A) :
  m tr = (Ok a, tr') -> bind m k tr = k a tr'.
Proof. unfold bind. now intros ->. Qed.

Lemma promptOf_Some (question : Question) (prompt : string) :
  q_prompt question = Some prompt -> Js.truthy prompt = true ->
  promptOf question = prompt.
Proof. unfold promptOf. intros -> H. simpl. now rewrite H. Qed.

(** A question that passes the validations: the body of the loop is the
    [try] block around its dialog. *)
Lemma questionStep_dialog (n i : nat) (question : Question) (answers : AnswerSet)
    (show : M string) :
  dialog n i question = Some show ->
  step n i question answers =
  tryCatch
    (result <- show ;;
     ret (Continue (setAnswer (generateAnswerKey (promptOf question) i) result answers)))
    (fun error =>
       if isCancellation error then ret (Return (cancelledAt i answers))
       else throw error).
Proof.
  unfold dialogOf, questionStep, dropdownWithoutOptions.
  destruct (q_prompt question) as [prompt|] eqn:Hp; simpl; [|discriminate].
  destruct (Js.truthy prompt) eqn:Ht; simpl; [|discriminate].
  rewrite (promptOf_Some question prompt Hp Ht).
  destruct (String.eqb (questionInputType question) "dropdown"
            && missingOptions (q_options question)); simpl; [discriminate|].
  now intros ->.
Qed.

Lemma questionStep_answered (n i : nat) (question : Question) (answers : AnswerSet)
    (show : M string) (value : string) (tr tr1 : Trace) :
  dialog n i question = Some show ->
  show tr = (Ok value, tr1) ->
  step n i question answers tr =
  (Ok (Continue (setAnswer (generateAnswerKey (promptOf question) i) value answers)), tr1).
Proof.
  intros Hd Hs. rewrite (questionStep_dialog _ _ _ _ _ Hd).
  unfold tryCatch, bind. now rewrite Hs.
Qed.

Lemma questionStep_cancelled (n i : nat) (question : Question) (answers : AnswerSet)
    (show : M string) (e : JsError) (tr tr1 : Trace) :
  dialog n i question = Some show ->
  show tr = (Throw e, tr1) ->
  isCancellation e = true ->
  step n i question answers tr = (Ok (Return (cancelledAt i answers)), tr1).
Proof.
  intros Hd Hs Hc. rewrite (questionStep_dialog _ _ _ _ _ Hd).
  unfold tryCatch, bind. rewrite Hs, Hc. reflexivity.
Qed.

Lemma questionStep_missingPrompt (n i : nat) (question : Question)
    (answers : AnswerSet) (tr : Trace) :
  Js.truthyOpt (q_prompt question) = false ->
  step n i question answers tr = (Ok (Return (missingPrompt i)), tr).
Proof.
  unfold questionStep. destruct (q_prompt question) as [prompt|]; simpl.
  - now intros ->.
  - reflexivity.
Qed.

Lemma questionStep_dropdown (n i : nat) (question : Question)
    (answers : AnswerSet) (tr : Trace) :
  Js.truthyOpt (q_prompt question) = true ->
  dropdownWithoutOptions question = true ->
  step n i question answers tr = (Ok (Return (missingDropdownOptions i)), tr).
Proof.
  unfold questionStep, dropdownWithoutOptions.
  destruct (q_prompt question) as [prompt|]; simpl; [|discriminate].
  now intros -> ->.
Qed.

(** A turn of the loop that goes on has shown a dialog, and the dialog has
    resolved. *)
Lemma questionStep_Continue (n i : nat) (question : Question)
    (answers answers' : AnswerSet) (tr tr1 : Trace) :
  step n i question answers tr = (Ok (Continue answers'), tr1) ->
  exists show value,
    dialog n i question = Some show
    /\ show tr = (Ok value, tr1)
    /\ answers' = setAnswer (generateAnswerKey (promptOf question) i) value answers.
Proof.
  destruct (dialog n i question) as [show|] eqn:Hd.
  - rewrite (questionStep_dialog _ _ _ _ _ Hd). unfold tryCatch, bind.
    destruct (show tr) as [[value|e] tr2] eqn:Hs.
    + intros [= <- <-]. now exists show, value.
    + destruct (isCancellation e); discriminate.
  - revert Hd. unfold dialogOf, questionStep, dropdownWithoutOptions, promptOf.
    destruct (q_prompt question) as [prompt|]; simpl; [|discriminate].
    destruct (Js.truthy prompt) eqn:Ht; simpl; [|discriminate].
    destruct (String.eqb (questionInputType question) "dropdown"
              && missingOptions (q_options question)); simpl; [discriminate|].
    intros ->. discriminate.
Qed.

Lemma chainLoop_app (n : nat) (qs1 qs2 : list Question) :
  forall (i : nat) (answers : AnswerSet) (tr : Trace),
    loop n i (qs1 ++ qs2)%list answers tr =
    match loop n i qs1 answers tr with
    | (Ok (Continue answers'), tr') => loop n (i + List.length qs1) qs2 answers' tr'
    | other => other
    end.
Proof.
  induction qs1 as [|q qs1 IH]; intros i answers tr; simpl.
  - unfold ret. now rewrite Nat.add_0_r.
  - unfold bind.
    destruct (step n i q answers tr) as [[[answers'|result]|e] tr'];
      [|reflexivity|reflexivity].
    rewrite IH. now rewrite Nat.add_succ_r.
Qed.

Lemma chainLoop_Answered (n i : nat) (questions : list Question)
    (tr tr' : Trace) (kvs : list (string * string)) :
  Answered runner platform n i questions tr kvs tr' ->
  forall answers : AnswerSet,
    loop n i questions answers tr = (Ok (Continue (collect kvs answers)), tr').
Proof.
  induction 1 as [i tr|i question rest show value tr tr1 tr2 kvs Hd Hs _ IH];
    intros answers; simpl.
  - reflexivity.
  - rewrite (bind_Ok _ _ _ _ _ (questionStep_answered n i question answers _ _ _ _ Hd Hs)).
    apply IH.
Qed.

Lemma chainLoop_Continue (n : nat) (questions : list Question) :
  forall (i : nat) (answers answers' : AnswerSet) (tr tr' : Trace),
    loop n i questions answers tr = (Ok (Continue answers'), tr') ->
    exists kvs,
      Answered runner platform n i questions tr kvs tr'
      /\ answers' = collect kvs answers.
Proof.
  induction questions as [|q rest IH]; intros i answers answers' tr tr'; simpl.
  - intros [= <- <-]. exists []. split; [constructor|reflexivity].
  - unfold bind at 1.
    destruct (step n i q answers tr) as [[[answers1|result]|e] tr1] eqn:Hq;
      [|discriminate|discriminate].
    intros Hrest.
    destruct (questionStep_Continue _ _ _ _ _ _ _ Hq) as (show & value & Hd & Hs & ->).
    destruct (IH _ _ _ _ _ Hrest) as (kvs & Hrun & ->).
    eexists. split; [econstructor; eassumption|reflexivity].
Qed.

End Chain.

(** ** The answers object *)

Lemma getAnswer_setOwn_eq (key value : string) (answers : AnswerSet) :
  getAnswer key (setOwn key value answers) = Some value.
Proof.
  induction answers as [|[k v] rest IH]; simpl.
  - now rewrite String.eqb_refl.
  - destruct (String.eqb k key) eqn:Hk; simpl.
    + now rewrite String.eqb_refl.
    + now rewrite Hk.
Qed.

Lemma getAnswer_setOwn_neq (key key' value : string) (answers : AnswerSet) :
  key' <> key ->
  getAnswer key' (setOwn key value answers) = getAnswer key' answers.
Proof.
  intros Hne. induction answers as [|[k v] rest IH]; simpl.
  - apply String.eqb_neq in Hne. rewrite String.eqb_sym. now rewrite Hne.
  - destruct (String.eqb k key) eqn:Hk; simpl.
    + apply String.eqb_eq in Hk. subst k.
      apply String.eqb_neq in Hne. rewrite String.eqb_sym. now rewrite Hne.
    + now rewrite IH.
Qed.

Lemma countKey_setOwn_eq (key value : string) (answers : AnswerSet) :
  countKey key (setOwn key value answers) = Nat.max 1 (countKey key answers).
Proof.
  unfold countKey. induction answers as [|[k v] rest IH]; simpl.
  - now rewrite String.eqb_refl.
  - destruct (String.eqb k key) eqn:Hk; simpl.
    + now rewrite String.eqb_refl.
    + now rewrite Hk.
Qed.

Lemma countKey_setOwn_neq (key key' value : string) (answers : AnswerSet) :
  key' <> key ->
  countKey key' (setOwn key value answers) = countKey key' answers.
Proof.
  intros Hne. apply String.eqb_neq in Hne. rewrite String.eqb_sym in Hne.
  unfold countKey. induction answers as [|[k v] rest IH]; simpl.
  - now rewrite Hne.
  - destruct (String.eqb k key) eqn:Hk; simpl.
    + apply String.eqb_eq in Hk. subst k. now rewrite Hne.
    + destruct (String.eqb k key'); simpl; now rewrite IH.
Qed.

(** An assignment to [__proto__] leaves the object as it is; an assignment
    to any other key sets the own property. *)
Lemma setAnswer_proto (value : string) (answers : AnswerSet) :
  setAnswer protoKey value answers = answers.
Proof. reflexivity. Qed.

Lemma setAnswer_own (key value : string) (answers : AnswerSet) :
  key <> protoKey -> setAnswer key value answers = setOwn key value answers.
Proof.
  intros Hne. unfold setAnswer.
  apply String.eqb_neq in Hne. now rewrite Hne.
Qed.

Lemma getAnswer_setAnswer_eq (key value : string) (answers : AnswerSet) :
  key <> protoKey ->
  getAnswer key (setAnswer key value answers) = Some value.
Proof.
  intros Hne. rewrite setAnswer_own by assumption. apply getAnswer_setOwn_eq.
Qed.

Lemma getAnswer_setAnswer_neq (key key' value : string) (answers : AnswerSet) :
  key' <> key ->
  getAnswer key' (setAnswer key value answers) = getAnswer key' answers.
Proof.
  intros Hne. unfold setAnswer. destruct (String.eqb key protoKey); [reflexivity|].
  now apply getAnswer_setOwn_neq.
Qed.

Lemma countKey_setAnswer_eq (key value : string) (answers : AnswerSet) :
  key <> protoKey ->
  countKey key (setAnswer key value answers) = Nat.max 1 (countKey key answers).
Proof.
  intros Hne. rewrite setAnswer_own by assumption. apply countKey_setOwn_eq.
Qed.

Lemma countKey_setAnswer_neq (key key' value : string) (answers : AnswerSet) :
  key' <> key ->
  countKey key' (setAnswer key value answers) = countKey key' answers.
Proof.
  intros Hne. unfold setAnswer. destruct (String.eqb key protoKey); [reflexivity|].
  now apply countKey_setOwn_neq.
Qed.

Lemma countKey_setAnswer_le (key key' value : string) (answers : AnswerSet) :
  countKey key' answers <= 1 ->
  countKey key' (setAnswer key value answers) <= 1.
Proof.
  intros Hle. unfold setAnswer. destruct (String.eqb key protoKey); [exact Hle|].
  destruct (String.eqb_spec key' key) as [->|Hne].
  - rewrite countKey_setOwn_eq. lia.
  - now rewrite countKey_setOwn_neq.
Qed.

(** No key is ever stored twice. *)
Lemma countKey_collect_le (kvs : list (string * string)) :
  forall answers : AnswerSet,
    (forall key, countKey key answers <= 1) ->
    forall key, countKey key (collect kvs answers) <= 1.
Proof.
  induction kvs as [|[k v] kvs IH]; intros answers Hle key; simpl.
  - apply Hle.
  - apply IH. intros key'. apply countKey_setAnswer_le, Hle.
Qed.

(** Assignments to other keys leave the property [key] as it is. *)
Lemma collect_other_keys (key : string) (kvs : list (string * string)) :
  ~ In key (map fst kvs) ->
  forall answers : AnswerSet,
    getAnswer key (collect kvs answers) = getAnswer key answers
    /\ countKey key (collect kvs answers) = countKey key answers.
Proof.
  induction kvs as [|[k v] kvs IH]; intros Hnotin answers; simpl.
  - split; reflexivity.
  - simpl in Hnotin.
    assert (Hne : key <> k) by (intros ->; apply Hnotin; now left).
    destruct (IH (fun H => Hnotin (or_intror H)) (setAnswer k v answers)) as [Hg Hc].
    rewrite Hg, Hc.
    now rewrite getAnswer_setAnswer_neq, countKey_setAnswer_neq.
Qed.

Lemma collect_app (kvs1 kvs2 : list (string * string)) (answers : AnswerSet) :
  collect (kvs1 ++ kvs2)%list answers = collect kvs2 (collect kvs1 answers).
Proof. unfold collect. apply fold_left_app. Qed.

(** The last assignment to a [key] other than [__proto__] decides its
    value, and [key] is stored once. *)
Lemma collect_last_write (key value : string) (before after : list (string * string)) :
  key <> protoKey ->
  ~ In key (map fst after) ->
  getAnswer key (collect (before ++ (key, value) :: after)%list []) = Some value
  /\ countKey key (collect (before ++ (key, value) :: after)%list []) = 1.
Proof.
  intros Hkey Hnotin. rewrite collect_app. simpl.
  destruct (collect_other_keys key after Hnotin
              (setAnswer key value (collect before []))) as [-> ->].
  rewrite getAnswer_setAnswer_eq, countKey_setAnswer_eq by assumption.
  split; [reflexivity|].
  assert (countKey key (collect before []) <= 1).
  { apply countKey_collect_le. intros k. unfold countKey. simpl. lia. }
  lia.
Qed.

(** What the object built by [collect] holds under each key: nothing new
    under [__proto__]; under any other key the value of the last pair that
    names it, and what the start object had when no pair does. *)
Lemma getAnswer_collect (key : string) (kvs : list (string * string)) :
  forall answers : AnswerSet,
    getAnswer key (collect kvs answers) =
    if String.eqb key protoKey then getAnswer key answers
    else match lastValue key kvs with
         | Some value => Some value
         | None => getAnswer key answers
         end.
Proof.
  induction kvs as [|[k v] kvs IH]; intros answers; simpl.
  - now destruct (String.eqb key protoKey).
  - rewrite IH.
    destruct (String.eqb_spec key protoKey) as [->|Hkey].
    + destruct (String.eqb_spec k protoKey) as [->|Hk].
      * now rewrite setAnswer_proto.
      * apply getAnswer_setAnswer_neq. congruence.
    + destruct (lastValue key kvs) as [later|]; [reflexivity|].
      destruct (String.eqb_spec k key) as [->|Hk].
      * now apply getAnswer_setAnswer_eq.
      * apply getAnswer_setAnswer_neq. congruence.
Qed.

Lemma getAnswer_collect_nil (key : string) (kvs : list (string * string)) :
  getAnswer key (collect kvs []) =
  if String.eqb key protoKey then None else lastValue key kvs.
Proof.
  rewrite getAnswer_collect. simpl.
  destruct (String.eqb key protoKey); [reflexivity|].
  now destruct (lastValue key kvs).
Qed.

Lemma countKey_collect_nil (key : string) (kvs : list (string * string)) :
  countKey key (collect kvs []) <= 1.
Proof.
  apply countKey_collect_le. intros k. unfold countKey. simpl. lia.
Qed.

(** The keys of an object built by [collect] are keys of the start object
    or of the pairs assigned. *)
Lemma setAnswer_keys (P : string -> Prop) (key value : string) (answers : AnswerSet) :
  P key -> Forall (fun e => P (fst e)) answers ->
  Forall (fun e => P (fst e)) (setAnswer key value answers).
Proof.
  intros Hk Ha. unfold setAnswer. destruct (String.eqb key protoKey); [exact Ha|].
  induction Ha as [|[k v] rest Hkv Hrest IH]; simpl.
  - constructor; [exact Hk|constructor].
  - destruct (String.eqb k key); constructor; auto.
Qed.

Lemma collect_keys (P : string -> Prop) (kvs : list (string * string)) :
  Forall (fun e => P (fst e)) kvs ->
  forall answers : AnswerSet,
    Forall (fun e => P (fst e)) answers ->
    Forall (fun e => P (fst e)) (collect kvs answers).
Proof.
  induction 1 as [|[k v] kvs Hk Hkvs IH]; intros answers Ha; simpl.
  - exact Ha.
  - apply IH. now apply setAnswer_keys.
Qed.

Lemma Answered_keys (runner : Runner) (platform : string) (n i : nat)
    (questions : list Question) (tr tr' : Trace) (kvs : list (string * string)) :
  Answered runner platform n i questions tr kvs tr' ->
  Forall (fun e => fst e <> EmptyString) kvs.
Proof.
  induction 1; constructor; auto.
  simpl. apply truthy_nonempty, generateAnswerKey_truthy.
Qed.

(** ** What [handleChainedQuestions] returns *)

Section ChainResults.

Variable runner : Runner.
Variable platform : string.

Local Abbreviation step := (questionStep runner platform).
Local Abbreviation loop := (chainLoop runner platform).
Local Abbreviation dialog := (dialogOf runner platform).
Local Abbreviation answered := (Answered runner platform).

(** A turn that returns from inside the loop returns a failure without
    data, or the cancellation result with the answers so far. *)
Lemma questionStep_Return (n i : nat) (question : Question) (answers : AnswerSet)
    (tr tr' : Trace) (result : ToolResult) :
  step n i question answers tr = (Ok (Return result), tr') ->
  data result = None \/ result = cancelledAt i answers.
Proof.
  unfold questionStep.
  destruct (q_prompt question) as [prompt|]; [|intros [= <- _]; now left].
  destruct (Js.truthy prompt); simpl; [|intros [= <- _]; now left].
  destruct (String.eqb (questionInputType question) "dropdown"
            && missingOptions (q_options question)); [intros [= <- _]; now left|].
  unfold tryCatch.
  destruct (platformSwitch _ _ _ _ _ _ _ _) as [show|].
  - unfold bind. destruct (show tr) as [[value|e] tr1].
    + discriminate.
    + destruct (isCancellation e); [|discriminate].
      intros [= <- _]. now right.
  - intros [= <- _]. now left.
Qed.

Lemma chainLoop_Return (n : nat) (questions : list Question) :
  forall (i : nat) (answers : AnswerSet) (tr tr' : Trace) (result : ToolResult),
    loop n i questions answers tr = (Ok (Return result), tr') ->
    data result = None
    \/ exists before kvs tr1,
         answered n i before tr kvs tr1
         /\ result = cancelledAt (i + List.length before) (collect kvs answers).
Proof.
  induction questions as [|q rest IH]; intros i answers tr tr' result; simpl.
  - discriminate.
  - unfold bind.
    destruct (step n i q answers tr) as [[[answers1|result1]|e] tr1] eqn:Hq;
      [| |discriminate].
    + intros Hrest.
      destruct (questionStep_Continue _ _ _ _ _ _ _ _ _ Hq)
        as (show & value & Hd & Hs & ->).
      destruct (IH _ _ _ _ _ Hrest) as [Hnone|(before & kvs & tr2 & Hrun & ->)];
        [now left|right].
      exists (q :: before), ((generateAnswerKey (promptOf q) i, value) :: kvs), tr2.
      split; [econstructor; eassumption|].
      simpl. now rewrite Nat.add_succ_r.
    + intros [= <- <-].
      destruct (questionStep_Return _ _ _ _ _ _ _ Hq) as [Hnone| ->]; [now left|right].
      exists [], [], tr. split; [constructor|].
      simpl. now rewrite Nat.add_0_r.
Qed.

(** X21.  When the questions before the index [i] have all been answered
    (with the key and value pairs [kvs]) and the dialog of the question at
    index [i] rejects with a cancellation error, [handleChainedQuestions]
    returns the result with [success: false], the error
    [User cancelled at question i+1] and the data
    [answeredQuestions: i, partialAnswers].  The partial answers are what
    the assignments [kvs] left in the object: under [__proto__] nothing,
    under every other key the value of the last of these questions that
    derives it, each key once.  The trace it leaves is the trace at the end
    of the cancelled dialog: no later question is shown. *)
Theorem chain_cancelled_at (before after : list Question) (question : Question)
    (kvs : list (string * string)) (tr tr1 tr2 : Trace) (show : M string)
    (cancel : JsError) :
  answered (List.length (before ++ question :: after)%list) 0 before tr kvs tr1 ->
  dialog (List.length (before ++ question :: after)%list) (List.length before) question
    = Some show ->
  show tr1 = (Throw cancel, tr2) ->
  isCancellation cancel = true ->
  handleChainedQuestions runner platform (before ++ question :: after)%list tr =
  (Ok {| success := false;
         output := None;
         error := Some ("User cancelled at question " ++ Js.ofNat (List.length before + 1));
         data := Some (PartialData (List.length before) (collect kvs [])) |},
   tr2)
  /\ (forall key : string,
        getAnswer key (collect kvs []) =
        if String.eqb key protoKey then None else lastValue key kvs)
  /\ (forall key : string, countKey key (collect kvs []) <= 1).
Proof.
  intros Hrun Hd Hs Hc. split; [|split].
  - unfold handleChainedQuestions.
    set (n := List.length (before ++ question :: after)%list) in *.
    unfold bind. rewrite chainLoop_app.
    rewrite (chainLoop_Answered _ _ _ _ _ _ _ _ Hrun). simpl.
    unfold bind.
    rewrite (questionStep_cancelled _ _ _ _ _ _ _ _ _ _ Hd Hs Hc).
    reflexivity.
  - intros key. apply getAnswer_collect_nil.
  - intros key. apply countKey_collect_nil.
Qed.

(** X22.  When every question of a chain is answered and two of them derive
    the same key, other than [__proto__], the later one being the last to
    derive it, the tool returns the complete result, and its answers hold
    that key once, with the value of the later question. *)
Theorem chain_last_write_wins (questions : list Question) (tr tr' : Trace)
    (before between after : list (string * string)) (key earlier later : string) :
  answered (List.length questions) 0 questions tr
    (before ++ (key, earlier) :: between ++ (key, later) :: after)%list tr' ->
  key <> protoKey ->
  ~ In key (map fst after) ->
  exists answers,
    handleChainedQuestions runner platform questions tr =
    (Ok {| success := true;
           output := Some (formattedOutput answers);
           error := None;
           data := Some (AnswersData answers (List.length questions)) |},
     tr')
    /\ getAnswer key answers = Some later
    /\ countKey key answers = 1.
Proof.
  intros Hrun Hkey Hnotin.
  eexists. split.
  - unfold handleChainedQuestions, bind.
    rewrite (chainLoop_Answered _ _ _ _ _ _ _ _ Hrun). reflexivity.
  - replace (before ++ (key, earlier) :: between ++ (key, later) :: after)%list
      with ((before ++ (key, earlier) :: between) ++ (key, later) :: after)%list
      by (rewrite <- List.app_assoc; reflexivity).
    now apply collect_last_write.
Qed.

(** C6.  When the questions before the index [i] have all been answered
    and the question at index [i] has no prompt, or an empty one,
    [handleChainedQuestions] returns at once (the trace is the one the
    earlier questions left) the failure
    [Question i+1 is missing required prompt field], which has no data and
    so no partial answers; the cancellation result has them. *)
Theorem chain_missing_prompt (before after : list Question) (question : Question)
    (kvs : list (string * string)) (tr tr1 : Trace) :
  answered (List.length (before ++ question :: after)%list) 0 before tr kvs tr1 ->
  Js.truthyOpt (q_prompt question) = false ->
  handleChainedQuestions runner platform (before ++ question :: after)%list tr =
  (Ok {| success := false;
         output := None;
         error := Some ("Question " ++ Js.ofNat (List.length before + 1)
                        ++ " is missing required " ++ Q ++ "prompt" ++ Q ++ " field");
         data := None |},
   tr1)
  /\ answersOf (missingPrompt (List.length before)) = None
  /\ answersOf (cancelledAt (List.length before) (collect kvs [])) = Some (collect kvs []).
Proof.
  intros Hrun Hp. split; [|split; reflexivity].
  unfold handleChainedQuestions, bind. rewrite chainLoop_app.
  rewrite (chainLoop_Answered _ _ _ _ _ _ _ _ Hrun). simpl.
  unfold bind. rewrite (questionStep_missingPrompt _ _ _ _ _ _ _ Hp).
  reflexivity.
Qed.

End ChainResults.

(** C2.  Two questions that derive the same key do not always leave that
    key with the later value.  The prompts [Enter __proto__] and
    [Provide the __proto__] both derive the key [__proto__]; the
    assignment [answers[key] = result] to that key stores nothing, so a
    chain of these two questions, both answered, returns the complete
    result with no answer at all and an empty output.  No result of a chain,
    complete or partial, ever holds the key [__proto__], whatever was
    answered. *)
Theorem proto_key_is_never_stored :
  generateAnswerKey "Enter __proto__" 0 = protoKey
  /\ generateAnswerKey "Provide the __proto__" 1 = protoKey
  /\ fst (handleChainedQuestions (scripted [prints "first"; prints "second"]) "darwin"
            [ask "Enter __proto__"; ask "Provide the __proto__"] [])
     = Ok {| success := true;
             output := Some EmptyString;
             error := None;
             data := Some (AnswersData [] 2) |}
  /\ (forall (runner : Runner) (platform : string) (questions : list Question)
             (tr tr' : Trace) (result : ToolResult) (answers : AnswerSet),
         handleChainedQuestions runner platform questions tr = (Ok result, tr') ->
         answersOf result = Some answers ->
         getAnswer protoKey answers = None /\ countKey protoKey answers = 0).
Proof.
  split; [vm_compute; reflexivity|].
  split; [vm_compute; reflexivity|].
  split; [vm_compute; reflexivity|].
  intros runner platform questions tr tr' result answers.
  assert (Hnone : forall kvs, getAnswer protoKey (collect kvs []) = None
                              /\ countKey protoKey (collect kvs []) = 0).
  { intros kvs.
    assert (Hg : getAnswer protoKey (collect kvs []) = None)
      by (now rewrite getAnswer_collect_nil).
    split; [exact Hg|].
    assert (Hin : forall l, getAnswer protoKey l = None -> countKey protoKey l = 0).
    { unfold countKey. induction l as [|[k v] l IH]; simpl; [reflexivity|].
      destruct (String.eqb k protoKey); [discriminate|exact IH]. }
    now apply Hin. }
  unfold handleChainedQuestions, bind.
  destruct (chainLoop runner platform (List.length questions) 0 questions [] tr)
    as [[[answers1|result1]|e] tr1] eqn:Hloop; [| |discriminate].
  - intros [= <- _] [= <-].
    destruct (chainLoop_Continue _ _ _ _ _ _ _ _ _ Hloop) as (kvs & Hrun & ->).
    apply Hnone.
  - intros [= <- _] Ha.
    destruct (chainLoop_Return _ _ _ _ _ _ _ _ _ Hloop)
      as [Hnone'|(before & kvs & tr2 & Hrun & ->)].
    + unfold answersOf in Ha. rewrite Hnone' in Ha. discriminate.
    + injection Ha as <-. apply Hnone.
Qed.

(** C10.  [generateAnswerKey] is a total function whose result is never
    the empty string, whatever the prompt and the index; so every key of
    the answers a chain returns, complete or partial, is non-empty. *)
Theorem generateAnswerKey_nonempty :
  (forall (prompt : string) (index : nat),
      generateAnswerKey prompt index <> EmptyString)
  /\ (forall (runner : Runner) (platform : string) (questions : list Question)
             (tr tr' : Trace) (result : ToolResult) (answers : AnswerSet),
         handleChainedQuestions runner platform questions tr = (Ok result, tr') ->
         answersOf result = Some answers ->
         Forall (fun e => fst e <> EmptyString) answers).
Proof.
  split.
  - intros prompt index. apply truthy_nonempty, generateAnswerKey_truthy.
  - intros runner platform questions tr tr' result answers.
    unfold handleChainedQuestions, bind.
    destruct (chainLoop runner platform (List.length questions) 0 questions [] tr)
      as [[[answers1|result1]|e] tr1] eqn:Hloop; [| |discriminate].
    + intros [= <- _] [= <-].
      destruct (chainLoop_Continue _ _ _ _ _ _ _ _ _ Hloop) as (kvs & Hrun & ->).
      apply (collect_keys (fun k => k <> EmptyString)); [|constructor].
      eapply Answered_keys; eassumption.
    + intros [= <- _] Ha.
      destruct (chainLoop_Return _ _ _ _ _ _ _ _ _ Hloop)
        as [Hnone|(before & kvs & tr2 & Hrun & ->)].
      * unfold answersOf in Ha. rewrite Hnone in Ha. discriminate.
      * injection Ha as <-.
        apply (collect_keys (fun k => k <> EmptyString)); [|constructor].
        eapply Answered_keys; eassumption.
Qed.

(** ** [execute] *)

(** C5.  A request without a usable prompt and without questions (absent
    or empty) gets the failure [Either prompt or questions parameter is
    required], and nothing is invoked.  A request with a non-empty list of
    questions runs [handleChainedQuestions] on it, whether or not it has a
    prompt as well. *)
Theorem execute_prompt_or_questions :
  (forall (runner : Runner) (platform : string) (args : Args) (tr : Trace),
      arg_questions args = None \/ arg_questions args = Some [] ->
      Js.truthyOpt (arg_prompt args) = false ->
      execute runner platform args tr =
      (Ok {| success := false;
             output := None;
             error := Some ("Either " ++ Q ++ "prompt" ++ Q ++ " or " ++ Q
                            ++ "questions" ++ Q ++ " parameter is required");
             data := None |},
       tr))
  /\ (forall (runner : Runner) (platform : string) (args : Args)
             (question : Question) (rest : list Question),
         arg_questions args = Some (question :: rest) ->
         execute runner platform args =
         handleChainedQuestions runner platform (question :: rest)).
Proof.
  split.
  - intros runner platform args tr Hq Hp. unfold execute.
    destruct (arg_prompt args) as [prompt|]; simpl in Hp.
    + rewrite Hp. destruct Hq as [-> | ->]; reflexivity.
    + destruct Hq as [-> | ->]; reflexivity.
  - intros runner platform args question rest Hq. unfold execute. now rewrite Hq.
Qed.

(** C4.  A dropdown request without options (absent or empty) fails before
    any adapter runs.  In the single-question path [execute] returns a
    failure and leaves the trace as it was.  In a chain, once the earlier
    questions have been answered, [handleChainedQuestions] returns a
    failure and the trace is the one the earlier questions left.  The error
    is the dropdown message when the prompt is usable, and the message
    about the missing prompt otherwise. *)
Theorem dropdown_without_options_fails_fast :
  (forall (runner : Runner) (platform : string) (args : Args) (tr : Trace),
      arg_questions args = None \/ arg_questions args = Some [] ->
      inputTypeOf (arg_type args) (arg_password args) = "dropdown" ->
      missingOptions (arg_options args) = true ->
      execute runner platform args tr =
      (Ok (if Js.truthyOpt (arg_prompt args)
           then failure "Dropdown type requires options array"
           else promptRequired),
       tr))
  /\ (forall (runner : Runner) (platform : string) (before after : list Question)
             (question : Question) (kvs : list (string * string)) (tr tr1 : Trace),
         Answered runner platform (List.length (before ++ question :: after)%list)
           0 before tr kvs tr1 ->
         questionInputType question = "dropdown" ->
         missingOptions (q_options question) = true ->
         handleChainedQuestions runner platform (before ++ question :: after)%list tr =
         (Ok (if Js.truthyOpt (q_prompt question)
              then failure ("Question " ++ Js.ofNat (List.length before + 1)
                            ++ ": Dropdown type requires options array")
              else missingPrompt (List.length before)),
          tr1)).
Proof.
  split.
  - intros runner platform args tr Hq Ht Ho. unfold execute.
    destruct (arg_prompt args) as [prompt|]; simpl.
    + destruct (Js.truthy prompt); simpl.
      * rewrite Ht, Ho. simpl. destruct Hq as [-> | ->]; reflexivity.
      * destruct Hq as [-> | ->]; reflexivity.
    + destruct Hq as [-> | ->]; reflexivity.
  - intros runner platform before after question kvs tr tr1 Hrun Ht Ho.
    unfold handleChainedQuestions, bind. rewrite chainLoop_app.
    rewrite (chainLoop_Answered _ _ _ _ _ _ _ _ Hrun). simpl. unfold bind.
    destruct (Js.truthyOpt (q_prompt question)) eqn:Hp.
    + rewrite questionStep_dropdown; [reflexivity|assumption|].
      unfold dropdownWithoutOptions. now rewrite Ht, Ho.
    + now rewrite questionStep_missingPrompt.
Qed.

(** ** The Linux dispatcher *)

Section Linux.

Variable runner : Runner.

Lemma extends_ret {A : Type} (a : A) : extends (ret a).
Proof. intros tr. exists []. simpl. now rewrite List.app_nil_r. Qed.

Lemma extends_throw {A : Type} (e : JsError) : extends (@throw A e).
Proof. intros tr. exists []. simpl. now rewrite List.app_nil_r. Qed.

Lemma extends_execAsync (cmd : string) (sh : option string) :
  extends (execAsync runner cmd sh).
Proof. intros tr. eexists. reflexivity. Qed.

Lemma extends_bind {A B : Type} (m : M A) (k : A -> M B) :
  extends m -> (forall a, extends (k a)) -> extends (bind m k).
Proof.
  intros Hm Hk tr. unfold bind.
  destruct (Hm tr) as [rest1 H1]. destruct (m tr) as [[a|e] tr1]; simpl in H1; subst tr1.
  - destruct (Hk a (tr ++ rest1)%list) as [rest2 H2].
    exists (rest1 ++ rest2)%list. now rewrite H2, List.app_assoc.
  - now exists rest1.
Qed.

Lemma extends_tryCatch {A : Type} (m : M A) (h : JsError -> M A) :
  extends m -> (forall e, extends (h e)) -> extends (tryCatch m h).
Proof.
  intros Hm Hh tr. unfold tryCatch.
  destruct (Hm tr) as [rest1 H1]. destruct (m tr) as [[a|e] tr1]; simpl in H1; subst tr1.
  - now exists rest1.
  - destruct (Hh e (tr ++ rest1)%list) as [rest2 H2].
    exists (rest1 ++ rest2)%list. now rewrite H2, List.app_assoc.
Qed.

Lemma extends_if {A : Type} (b : bool) (m1 m2 : M A) :
  extends m1 -> extends m2 -> extends (if b then m1 else m2).
Proof. now destruct b. Qed.

Create HintDb trace.
#[local] Hint Resolve extends_ret extends_throw extends_execAsync extends_bind
  extends_tryCatch extends_if : trace.

Lemma extends_showZenityDialog (prompt : string) (defaultValue title : option string)
    (password : bool) :
  extends (showZenityDialog runner prompt defaultValue title password).
Proof. unfold showZenityDialog. auto 6 with trace. Qed.

Lemma extends_showKdialogDialog (prompt : string) (defaultValue title : option string)
    (password : bool) :
  extends (showKdialogDialog runner prompt defaultValue title password).
Proof. unfold showKdialogDialog. auto 6 with trace. Qed.

(** The terminal adapter makes one invocation: its [read] script, under
    bash. *)
Lemma showTerminalInput_trace (prompt : string) (defaultValue : option string)
    (password : bool) (tr : Trace) :
  snd (showTerminalInput runner prompt defaultValue password tr) =
  (tr ++ [ {| command := terminalInputScript prompt defaultValue password;
              shell := Some "/bin/bash" |} ])%list.
Proof.
  unfold showTerminalInput, tryCatch, bind, execAsync, ret, throw, bash.
  destruct (Nat.eqb _ 0); reflexivity.
Qed.

Lemma execAsync_fails (cmd : string) (sh : option string) (tr : Trace) :
  exitStatus (runner tr {| command := cmd; shell := sh |}) <> 0 ->
  exists e, execAsync runner cmd sh tr = (Throw e, (tr ++ [{| command := cmd; shell := sh |}])%list).
Proof.
  intros H. apply Nat.eqb_neq in H. unfold execAsync. rewrite H. eexists. reflexivity.
Qed.

Lemma execAsync_succeeds (cmd : string) (sh : option string) (tr : Trace) :
  exitStatus (runner tr {| command := cmd; shell := sh |}) = 0 ->
  execAsync runner cmd sh tr =
  (Ok (stdout (runner tr {| command := cmd; shell := sh |})),
   (tr ++ [{| command := cmd; shell := sh |}])%list).
Proof. intros H. unfold execAsync. now rewrite H. Qed.

(** The [catch] block of [showLinuxDialog] starts with the kdialog probe. *)
Lemma kdialogOrTerminal_first (prompt : string) (defaultValue title : option string)
    (password : bool) (tr : Trace) :
  exists rest,
    snd (kdialogOrTerminal runner prompt defaultValue title password tr) =
    (tr ++ whichKdialog :: rest)%list.
Proof.
  assert (Hk : extends
            (tryCatch (showKdialogDialog runner prompt defaultValue title password)
               (fun _ => showTerminalInput runner prompt defaultValue password))).
  { apply extends_tryCatch; [apply extends_showKdialogDialog|].
    intros _ tr1. eexists. apply showTerminalInput_trace. }
  unfold kdialogOrTerminal, tryCatch at 1, bind.
  destruct (Nat.eq_dec (exitStatus (runner tr whichKdialog)) 0) as [Hz|Hnz].
  - rewrite (execAsync_succeeds _ _ _ Hz).
    destruct (Hk (tr ++ [whichKdialog])%list) as [rest Hrest].
    unfold tryCatch in Hrest.
    destruct (showKdialogDialog _ _ _ _ _ _) as [[v|e] tr1].
    + exists rest. simpl in *. rewrite Hrest, <- List.app_assoc. reflexivity.
    + exists rest. rewrite Hrest, <- List.app_assoc. reflexivity.
  - destruct (execAsync_fails _ _ _ Hnz) as [e ->].
    eexists. rewrite showTerminalInput_trace, <- List.app_assoc. reflexivity.
Qed.

(** The two stages of [showLinuxDialog], by the outcome of their probe. *)
Lemma showLinuxDialog_probe_fails (prompt : string) (defaultValue title : option string)
    (password : bool) (tr : Trace) :
  exitStatus (runner tr whichZenity) <> 0 ->
  showLinuxDialog runner prompt defaultValue title password tr =
  kdialogOrTerminal runner prompt defaultValue title password (tr ++ [whichZenity])%list.
Proof.
  intros Hnz. unfold showLinuxDialog, tryCatch at 1, bind.
  now destruct (execAsync_fails _ _ _ Hnz) as [e ->].
Qed.

Lemma showLinuxDialog_probe_succeeds (prompt : string) (defaultValue title : option string)
    (password : bool) (tr : Trace) :
  exitStatus (runner tr whichZenity) = 0 ->
  showLinuxDialog runner prompt defaultValue title password tr =
  match showZenityDialog runner prompt defaultValue title password
          (tr ++ [whichZenity])%list with
  | (Ok value, tr1) => (Ok value, tr1)
  | (Throw _, tr1) => kdialogOrTerminal runner prompt defaultValue title password tr1
  end.
Proof.
  intros Hz. unfold showLinuxDialog, tryCatch at 1, bind.
  now rewrite (execAsync_succeeds _ _ _ Hz).
Qed.

Lemma kdialogOrTerminal_probe_fails (prompt : string) (defaultValue title : option string)
    (password : bool) (tr : Trace) :
  exitStatus (runner tr whichKdialog) <> 0 ->
  kdialogOrTerminal runner prompt defaultValue title password tr =
  showTerminalInput runner prompt defaultValue password (tr ++ [whichKdialog])%list.
Proof.
  intros Hnk. unfold kdialogOrTerminal, tryCatch at 1, bind.
  now destruct (execAsync_fails _ _ _ Hnk) as [e ->].
Qed.

Lemma kdialogOrTerminal_probe_succeeds (prompt : string) (defaultValue title : option string)
    (password : bool) (tr : Trace) :
  exitStatus (runner tr whichKdialog) = 0 ->
  kdialogOrTerminal runner prompt defaultValue title password tr =
  match showKdialogDialog runner prompt defaultValue title password
          (tr ++ [whichKdialog])%list with
  | (Ok value, tr1) => (Ok value, tr1)
  | (Throw _, tr1) => showTerminalInput runner prompt defaultValue password tr1
  end.
Proof.
  intros Hk. unfold kdialogOrTerminal, tryCatch at 1, bind.
  now rewrite (execAsync_succeeds _ _ _ Hk).
Qed.

(** C8.  [showLinuxDialog] tries zenity, then kdialog, then the terminal,
    and each stage decides the call as follows.
    - Its first invocation is the zenity probe.  When the probe succeeds
      and the zenity adapter resolves, the call resolves with that value
      and that trace: nothing else is run.
    - The kdialog stage starts from the trace [trz] that the zenity stage
      leaves when the probe fails (the trace with the probe) or when the
      probe succeeds and the zenity adapter rejects (the trace of the
      adapter), and only then.  Its first invocation is the kdialog probe.
      When the probe succeeds and the kdialog adapter resolves, the call
      resolves with that value and that trace.
    - When the kdialog probe succeeds and the kdialog adapter rejects, and
      when the kdialog probe fails, the call is the call of the terminal
      adapter from the trace reached: its outcome, whatever it is, is the
      outcome of the call.  So with neither zenity nor kdialog found, the
      request goes to the terminal adapter after the two probes, and
      neither the zenity nor the kdialog adapter is run. *)
Theorem linux_fallback_order (prompt : string) (defaultValue title : option string)
    (password : bool) (tr : Trace) :
  (exists rest,
      snd (showLinuxDialog runner prompt defaultValue title password tr) =
      (tr ++ whichZenity :: rest)%list)
  /\ (forall (value : string) (tr1 : Trace),
         exitStatus (runner tr whichZenity) = 0 ->
         showZenityDialog runner prompt defaultValue title password
           (tr ++ [whichZenity])%list = (Ok value, tr1) ->
         showLinuxDialog runner prompt defaultValue title password tr = (Ok value, tr1))
  /\ (forall trz : Trace,
         (exitStatus (runner tr whichZenity) <> 0 /\ trz = (tr ++ [whichZenity])%list)
         \/ (exitStatus (runner tr whichZenity) = 0
             /\ exists failed : JsError,
                  showZenityDialog runner prompt defaultValue title password
                    (tr ++ [whichZenity])%list = (Throw failed, trz)) ->
         (exists rest,
             snd (showLinuxDialog runner prompt defaultValue title password tr) =
             (trz ++ whichKdialog :: rest)%list)
         /\ (forall (value : string) (tr2 : Trace),
                exitStatus (runner trz whichKdialog) = 0 ->
                showKdialogDialog runner prompt defaultValue title password
                  (trz ++ [whichKdialog])%list = (Ok value, tr2) ->
                showLinuxDialog runner prompt defaultValue title password tr =
                (Ok value, tr2))
         /\ (forall (failed : JsError) (tr2 : Trace),
                exitStatus (runner trz whichKdialog) = 0 ->
                showKdialogDialog runner prompt defaultValue title password
                  (trz ++ [whichKdialog])%list = (Throw failed, tr2) ->
                showLinuxDialog runner prompt defaultValue title password tr =
                showTerminalInput runner prompt defaultValue password tr2)
         /\ (exitStatus (runner trz whichKdialog) <> 0 ->
             showLinuxDialog runner prompt defaultValue title password tr =
             showTerminalInput runner prompt defaultValue password
               (trz ++ [whichKdialog])%list)).
Proof.
  split; [|split].
  - destruct (Nat.eq_dec (exitStatus (runner tr whichZenity)) 0) as [Hz|Hnz].
    + rewrite (showLinuxDialog_probe_succeeds _ _ _ _ _ Hz).
      destruct (extends_showZenityDialog prompt defaultValue title password
                  (tr ++ [whichZenity])%list) as [rest1 H1].
      destruct (showZenityDialog _ _ _ _ _ _) as [[value|e] tr1]; simpl in H1; subst tr1.
      * exists rest1. simpl. now rewrite <- List.app_assoc.
      * destruct (kdialogOrTerminal_first prompt defaultValue title password
                    ((tr ++ [whichZenity]) ++ rest1)%list) as [rest2 ->].
        eexists. rewrite <- !List.app_assoc. reflexivity.
    + rewrite (showLinuxDialog_probe_fails _ _ _ _ _ Hnz).
      destruct (kdialogOrTerminal_first prompt defaultValue title password
                  (tr ++ [whichZenity])%list) as [rest ->].
      exists (whichKdialog :: rest). now rewrite <- List.app_assoc.
  - intros value tr1 Hz Hzenity.
    now rewrite (showLinuxDialog_probe_succeeds _ _ _ _ _ Hz), Hzenity.
  - intros trz Hstage.
    assert (Hcall : showLinuxDialog runner prompt defaultValue title password tr =
                    kdialogOrTerminal runner prompt defaultValue title password trz).
    { destruct Hstage as [[Hnz ->]|[Hz [failed Hzenity]]].
      - now apply showLinuxDialog_probe_fails.
      - now rewrite (showLinuxDialog_probe_succeeds _ _ _ _ _ Hz), Hzenity. }
    rewrite Hcall. split; [|split; [|split]].
    + apply kdialogOrTerminal_first.
    + intros value tr2 Hk Hkdialog.
      now rewrite (kdialogOrTerminal_probe_succeeds _ _ _ _ _ Hk), Hkdialog.
    + intros failed tr2 Hk Hkdialog.
      now rewrite (kdialogOrTerminal_probe_succeeds _ _ _ _ _ Hk), Hkdialog.
    + apply kdialogOrTerminal_probe_fails.
Qed.

End Linux.

(** ** The escapers *)

Lemma append_assoc (s1 s2 s3 : string) :
  (s1 ++ s2) ++ s3 = s1 ++ (s2 ++ s3).
Proof. induction s1 as [|c s1 IH]; simpl; [reflexivity|now rewrite IH]. Qed.

Lemma replaceAll_app (c : ascii) (by_ s1 s2 : string) :
  Js.replaceAll c by_ (s1 ++ s2) = Js.replaceAll c by_ s1 ++ Js.replaceAll c by_ s2.
Proof.
  induction s1 as [|d s1 IH]; simpl; [reflexivity|].
  destruct (Ascii.eqb d c); simpl; rewrite IH; [|reflexivity].
  symmetry. apply append_assoc.
Qed.

Lemma escapeAppleScript_app (s1 s2 : string) :
  escapeAppleScript (s1 ++ s2) = escapeAppleScript s1 ++ escapeAppleScript s2.
Proof. unfold escapeAppleScript. now rewrite !replaceAll_app. Qed.

Lemma escapeAppleScript_char (c : ascii) :
  escapeAppleScript (Js.str c) = escapeAppleScriptChar c.
Proof.
  unfold escapeAppleScriptChar.
  destruct (Ascii.eqb_spec c Js.backslash) as [->|Hb]; [reflexivity|].
  destruct (Ascii.eqb_spec c Js.dquote) as [->|Hd]; [reflexivity|].
  destruct (Ascii.eqb_spec c Js.squote) as [->|Hs]; [reflexivity|].
  destruct (Ascii.eqb_spec c Js.newline) as [->|Hn]; [reflexivity|].
  apply Ascii.eqb_neq in Hb, Hd, Hs, Hn.
  unfold escapeAppleScript, Js.str. simpl.
  rewrite Hb. simpl. rewrite Hd. simpl. rewrite Hs. simpl. now rewrite Hn.
Qed.

Lemma escapeAppleScript_cons (c : ascii) (s : string) :
  escapeAppleScript (String c s) = escapeAppleScriptChar c ++ escapeAppleScript s.
Proof.
  change (String c s) with (Js.str c ++ s).
  now rewrite escapeAppleScript_app, escapeAppleScript_char.
Qed.

(** The AppleScript escaper does what the contract of the escapers asks:
    the shell and then AppleScript read its output back as the text with
    its line feeds folded. *)
Lemma escapeAppleScript_round_trip (s : string) :
  readOsascript (escapeAppleScript s) = Some (foldNewlines s).
Proof.
  unfold readOsascript.
  assert (H : exists t, readShellSingle (escapeAppleScript s) = Some t
                        /\ readAppleScript t = Some (foldNewlines s)).
  { induction s as [|c s (t & Hshell & Happle)].
    - exists EmptyString. split; reflexivity.
    - rewrite escapeAppleScript_cons. unfold escapeAppleScriptChar, foldNewlines.
      destruct (Ascii.eqb_spec c Js.backslash) as [->|Hb].
      { exists (String Js.backslash (String Js.backslash t)).
        simpl. rewrite Hshell. simpl. fold (foldNewlines s). rewrite Happle.
        split; reflexivity. }
      destruct (Ascii.eqb_spec c Js.dquote) as [->|Hd].
      { exists (String Js.backslash (String Js.dquote t)).
        simpl. rewrite Hshell. simpl. fold (foldNewlines s). rewrite Happle.
        split; reflexivity. }
      destruct (Ascii.eqb_spec c Js.squote) as [->|Hs].
      { exists (String Js.squote t).
        simpl. rewrite Hshell. simpl. fold (foldNewlines s). rewrite Happle.
        split; reflexivity. }
      destruct (Ascii.eqb_spec c Js.newline) as [->|Hn].
      { exists (String Js.space t).
        simpl. rewrite Hshell. simpl. fold (foldNewlines s). rewrite Happle.
        split; reflexivity. }
      apply Ascii.eqb_neq in Hb, Hd, Hs, Hn.
      exists (String c t). simpl.
      rewrite Hs, Hshell, Hb, Hd, Hn. simpl. fold (foldNewlines s). rewrite Happle.
      split; reflexivity. }
  destruct H as (t & -> & Happle). exact Happle.
Qed.

(** C7.  Of the three escapers only the AppleScript one folds line feeds
    and doubles backslashes (see [escapeAppleScript_round_trip]).  The
    PowerShell escaper leaves a line feed in place, so the text [a], line
    feed, [b] reads back with its line feed and not with a space.  The
    shell escaper leaves line feeds and backslashes in place: the same text
    reads back with its line feed, two backslashes read back as one, and a
    backslash before a double quote does not read back as a literal at
    all. *)
Theorem escapers_keep_newlines_and_backslashes :
  readPowerShell (escapePowerShell ("a" ++ nl ++ "b")) = Some ("a" ++ nl ++ "b")
  /\ readPowerShell (escapePowerShell ("a" ++ nl ++ "b"))
     <> Some (foldNewlines ("a" ++ nl ++ "b"))
  /\ readShellDouble (escapeShell ("a" ++ nl ++ "b"))
     <> Some (foldNewlines ("a" ++ nl ++ "b"))
  /\ readShellDouble (escapeShell (Js.str Js.backslash ++ Js.str Js.backslash))
     = Some (Js.str Js.backslash)
  /\ readShellDouble (escapeShell (Js.str Js.backslash ++ Q)) = None
  /\ readOsascript (escapeAppleScript ("a" ++ nl ++ "b")) = Some "a b".
Proof. repeat split; vm_compute; congruence. Qed.

(** ** Cancellation *)

(** The errors the adapters throw for a cancellation are the ones
    [handleChainedQuestions] takes for one. *)
Lemma adapter_cancellations_recognised :
  isCancellation cancelInput = true /\ isCancellation cancelSelection = true.
Proof. split; reflexivity. Qed.

(** What a rejected zenity invocation leaves: of the exit status the test
    sees only that it is not 0; the message decides the rest. *)
Lemma showZenityDialog_rejected (runner : Runner) (prompt : string)
    (defaultValue title : option string) (password : bool) (tr : Trace) :
  let inv := {| command := zenityDialogCommand prompt defaultValue title password;
                shell := None |} in
  let rejection :=
    {| message := "Command failed: " ++ command inv ++ nl ++ stderr (runner tr inv);
       code := Some (exitStatus (runner tr inv)) |} in
  exitStatus (runner tr inv) <> 0 ->
  fst (showZenityDialog runner prompt defaultValue title password tr) =
  Throw (if zenityCancelled rejection then cancelInput else rejection).
Proof.
  intros inv rejection Hnz. apply Nat.eqb_neq in Hnz.
  subst rejection inv. cbn [command].
  unfold showZenityDialog, tryCatch, bind, execAsync. rewrite Hnz.
  destruct (zenityCancelled _); reflexivity.
Qed.

(** Whatever zenity and kdialog do, [showLinuxDialog] resolves or rejects
    with the error of the terminal adapter: its [catch] blocks take every
    rejection of the two graphical adapters, the cancellation errors
    included, for a reason to fall back. *)
Lemma showTerminalInput_result (runner : Runner) (prompt : string)
    (defaultValue : option string) (password : bool) (tr : Trace) :
  (exists value, fst (showTerminalInput runner prompt defaultValue password tr) = Ok value)
  \/ fst (showTerminalInput runner prompt defaultValue password tr)
     = Throw (newError "Failed to read input from terminal").
Proof.
  unfold showTerminalInput, tryCatch, bind, execAsync.
  destruct (Nat.eqb _ 0); simpl; [left; eexists; reflexivity|now right].
Qed.

Lemma kdialogOrTerminal_result (runner : Runner) (prompt : string)
    (defaultValue title : option string) (password : bool) (tr : Trace) :
  (exists value,
      fst (kdialogOrTerminal runner prompt defaultValue title password tr) = Ok value)
  \/ fst (kdialogOrTerminal runner prompt defaultValue title password tr)
     = Throw (newError "Failed to read input from terminal").
Proof.
  remember (kdialogOrTerminal runner prompt defaultValue title password tr) as r eqn:Hr.
  unfold kdialogOrTerminal, tryCatch at 1, bind at 1 in Hr.
  destruct (execAsync runner "which kdialog" None tr) as [[out|e] tr1].
  - destruct (showKdialogDialog runner prompt defaultValue title password tr1)
      as [[value|e] tr2]; subst r.
    + left. now exists value.
    + apply showTerminalInput_result.
  - subst r. apply showTerminalInput_result.
Qed.

Lemma showLinuxDialog_result (runner : Runner) (prompt : string)
    (defaultValue title : option string) (password : bool) (tr : Trace) :
  (exists value,
      fst (showLinuxDialog runner prompt defaultValue title password tr) = Ok value)
  \/ fst (showLinuxDialog runner prompt defaultValue title password tr)
     = Throw (newError "Failed to read input from terminal").
Proof.
  remember (showLinuxDialog runner prompt defaultValue title password tr) as r eqn:Hr.
  unfold showLinuxDialog, tryCatch at 1, bind at 1 in Hr.
  destruct (execAsync runner "which zenity" None tr) as [[out|e] tr1].
  - destruct (showZenityDialog runner prompt defaultValue title password tr1)
      as [[value|e] tr2]; subst r.
    + left. now exists value.
    + apply kdialogOrTerminal_result.
  - subst r. apply kdialogOrTerminal_result.
Qed.

Lemma showLinuxDialog_never_cancels (runner : Runner) (prompt : string)
    (defaultValue title : option string) (password : bool) (tr : Trace) (e : JsError) :
  fst (showLinuxDialog runner prompt defaultValue title password tr) = Throw e ->
  isCancellation e = false.
Proof.
  destruct (showLinuxDialog_result runner prompt defaultValue title password tr)
    as [[value ->]| ->].
  - discriminate.
  - now intros [= <-].
Qed.

(** C9.  [showZenityDialog] decides between cancellation and failure by
    searching the message of the rejected invocation for [code 1] and
    [code 255]; the message holds the command and the standard error, not
    the exit status.  With the prompt [Name] and nothing on the standard
    error, the exit statuses 1 and 255 both leave the error of the
    invocation itself, which is no cancellation; with the prompt
    [Enter code 1], or with [exited with code 127] on the standard error,
    the exit statuses 5 and 2 leave the cancellation error. *)
Theorem zenity_cancel_test_reads_the_message :
  (exists e,
      fst (showZenityDialog (scripted [exits 1 EmptyString]) "Name" None None false [])
      = Throw e
      /\ code e = Some 1 /\ isCancellation e = false)
  /\ (exists e,
         fst (showZenityDialog (scripted [exits 255 EmptyString]) "Name" None None false [])
         = Throw e
         /\ code e = Some 255 /\ isCancellation e = false)
  /\ fst (showZenityDialog (scripted [exits 5 EmptyString]) "Enter code 1"
            None None false [])
     = Throw (newError "User cancelled the input dialog")
  /\ fst (showZenityDialog (scripted [exits 2 "helper exited with code 127"]) "Name"
            None None false [])
     = Throw (newError "User cancelled the input dialog").
Proof.
  repeat split; try (eexists; repeat split); vm_compute; reflexivity.
Qed.

(** ** The theorems at concrete requests *)

(** On macOS, three questions, the second one cancelled: the result counts
    one answered question and holds the first answer, and only two dialogs
    were shown. *)
Lemma chain_cancelled_at_example :
  exists tr2,
    handleChainedQuestions (scripted [prints "Ana"; userCanceled]) "darwin"
      [ask "What is your name?"; ask "Enter your email:"; ask "Your age?"] [] =
    (Ok {| success := false;
           output := None;
           error := Some "User cancelled at question 2";
           data := Some (PartialData 1 [("name", "Ana")]) |},
     tr2)
    /\ List.length tr2 = 2.
Proof.
  eexists. split.
  - eapply proj1.
    eapply (chain_cancelled_at (scripted [prints "Ana"; userCanceled]) "darwin"
              [ask "What is your name?"] [ask "Your age?"] (ask "Enter your email:")
              [("name", "Ana")] []).
    + eapply Answered_cons; [reflexivity|vm_compute; reflexivity|apply Answered_nil].
    + reflexivity.
    + vm_compute. reflexivity.
    + vm_compute. reflexivity.
  - reflexivity.
Defined.

(** Two questions that both derive the key [name]: the answers hold
    [name] once, with the second value. *)
Lemma chain_last_write_wins_example :
  exists tr' answers,
    handleChainedQuestions (scripted [prints "Ana"; prints "Rex"]) "darwin"
      [ask "Your name?"; ask "Pet name?"] [] =
    (Ok {| success := true;
           output := Some (formattedOutput answers);
           error := None;
           data := Some (AnswersData answers 2) |},
     tr')
    /\ getAnswer "name" answers = Some "Rex"
    /\ countKey "name" answers = 1.
Proof.
  eexists.
  eapply (chain_last_write_wins (scripted [prints "Ana"; prints "Rex"]) "darwin"
            [ask "Your name?"; ask "Pet name?"] [] _ [] [] [] "name" "Ana" "Rex").
  - eapply Answered_cons; [reflexivity|vm_compute; reflexivity|].
    eapply Answered_cons; [reflexivity|vm_compute; reflexivity|apply Answered_nil].
  - discriminate.
  - simpl. tauto.
Defined.

(** A chain whose second question has an empty prompt: the failure names
    question 2 and carries no data. *)
Lemma chain_missing_prompt_example :
  exists tr1,
    handleChainedQuestions (scripted [prints "Ana"]) "darwin"
      [ask "What is your name?"; ask EmptyString; ask "Your age?"] [] =
    (Ok {| success := false;
           output := None;
           error := Some ("Question 2 is missing required " ++ Q ++ "prompt" ++ Q
                          ++ " field");
           data := None |},
     tr1)
    /\ List.length tr1 = 1.
Proof.
  eexists. split.
  - eapply proj1.
    eapply (chain_missing_prompt (scripted [prints "Ana"]) "darwin"
              [ask "What is your name?"] [ask "Your age?"] (ask EmptyString)
              [("name", "Ana")] []).
    + eapply Answered_cons; [reflexivity|vm_compute; reflexivity|apply Answered_nil].
    + reflexivity.
  - reflexivity.
Defined.

(** A dropdown request without options, alone and as the second question
    of a chain on Linux: both fail, and the only invocation is the dialog
    of the first question of the chain. *)
Lemma dropdown_without_options_example :
  execute (scripted []) "linux"
    (mkArgs (Some "Pick a colour") None None None (Some []) (Some "dropdown") None) [] =
  (Ok (failure "Dropdown type requires options array"), [])
  /\ exists tr1,
       handleChainedQuestions (scripted [prints "Ana"]) "darwin"
         [ask "What is your name?"; pick "Pick a colour"] [] =
       (Ok (failure "Question 2: Dropdown type requires options array"), tr1)
       /\ List.length tr1 = 1.
Proof.
  split.
  - apply (proj1 dropdown_without_options_fails_fast (scripted []) "linux"
             (mkArgs (Some "Pick a colour") None None None (Some []) (Some "dropdown") None)
             []); [now left|reflexivity|reflexivity].
  - eexists. split.
    + eapply (proj2 dropdown_without_options_fails_fast (scripted [prints "Ana"]) "darwin"
               [ask "What is your name?"] [] (pick "Pick a colour") [("name", "Ana")] []).
      * eapply Answered_cons; [reflexivity|vm_compute; reflexivity|apply Answered_nil].
      * reflexivity.
      * reflexivity.
    + reflexivity.
Defined.

(** A request with neither prompt nor questions, and a request with both. *)
Lemma execute_prompt_or_questions_example :
  execute (scripted []) "linux" (mkArgs None None None None None None None) [] =
  (Ok promptRequired, [])
  /\ execute (scripted [prints "Ana"]) "darwin"
       (mkArgs (Some "Ignored?") None None None None None
          (Some [ask "What is your name?"])) =
     handleChainedQuestions (scripted [prints "Ana"]) "darwin" [ask "What is your name?"].
Proof.
  split.
  - apply (proj1 execute_prompt_or_questions (scripted []) "linux"
             (mkArgs None None None None None None None) []);
      [now left|reflexivity].
  - apply (proj2 execute_prompt_or_questions (scripted [prints "Ana"]) "darwin"
             (mkArgs (Some "Ignored?") None None None None None
                (Some [ask "What is your name?"]))
             (ask "What is your name?") []).
    reflexivity.
Defined.

(** Linux with zenity: the answer is the one typed in the zenity dialog,
    after the probe and the dialog and nothing else.  Linux with kdialog
    only: the zenity probe fails, the kdialog probe succeeds, and the
    answer is the one typed in the kdialog dialog. *)
Lemma linux_fallback_order_example :
  (exists zenity,
      showLinuxDialog (scripted [prints "/usr/bin/zenity"; prints "Ana"])
        "Name" None None false [] = (Ok "Ana", [whichZenity; zenity]))
  /\ (exists kdialog,
         showLinuxDialog
           (scripted [exits 1 EmptyString; prints "/usr/bin/kdialog"; prints "Ana"])
           "Name" None None false [] = (Ok "Ana", [whichZenity; whichKdialog; kdialog])).
Proof.
  split.
  - eexists.
    apply (proj1 (proj2 (linux_fallback_order
                           (scripted [prints "/usr/bin/zenity"; prints "Ana"])
                           "Name" None None false []))).
    + reflexivity.
    + vm_compute. reflexivity.
  - eexists.
    destruct (proj2 (proj2 (linux_fallback_order
                (scripted [exits 1 EmptyString; prints "/usr/bin/kdialog"; prints "Ana"])
                "Name" None None false [])) [whichZenity]) as (_ & Hkdialog & _).
    + left. split; [discriminate|reflexivity].
    + apply Hkdialog.
      * reflexivity.
      * vm_compute. reflexivity.
Defined.

(** The keys of the answers of a run are non-empty. *)
Lemma generateAnswerKey_nonempty_example :
  generateAnswerKey EmptyString 0 <> EmptyString
  /\ Forall (fun e => fst e <> EmptyString) [("name", "Ana")].
Proof.
  split.
  - apply (proj1 generateAnswerKey_nonempty).
  - apply (proj2 generateAnswerKey_nonempty (scripted [prints "Ana"; userCanceled]) "darwin"
             [ask "What is your name?"; ask "Enter your email:"] []
             (snd (handleChainedQuestions (scripted [prints "Ana"; userCanceled]) "darwin"
                     [ask "What is your name?"; ask "Enter your email:"] []))
             (cancelledAt 1 [("name", "Ana")]));
      reflexivity.
Defined.

(** * Further properties of the tool *)

(** ** Rejections and results of [execute] *)

Lemma platformSwitch_unsupported (runner : Runner) (platform inputType prompt : string)
    (options : option (list string)) (default_value t1 t2 : option string) :
  supported platform = false ->
  platformSwitch runner platform inputType prompt options default_value t1 t2 = None.
Proof.
  unfold supported, platformSwitch. intros H.
  destruct (String.eqb platform "darwin"); [discriminate|].
  destruct (String.eqb platform "win32"); [discriminate|].
  destruct (String.eqb platform "linux"); [discriminate|reflexivity].
Qed.

Lemma questionStep_rejected (runner : Runner) (platform : string) (n i : nat)
    (question : Question) (answers : AnswerSet) (show : M string) (e : JsError)
    (tr tr1 : Trace) :
  dialogOf runner platform n i question = Some show ->
  show tr = (Throw e, tr1) ->
  isCancellation e = false ->
  questionStep runner platform n i question answers tr = (Throw e, tr1).
Proof.
  intros Hd Hs Hc. rewrite (questionStep_dialog _ _ _ _ _ _ _ Hd).
  unfold tryCatch, bind. rewrite Hs, Hc. reflexivity.
Qed.

(** With processes that end, the call for a single question ends in a
    result object. *)
Lemma execute_single_result (runner : Runner) (platform : string)
    (args : Args) (tr : Trace) :
  arg_questions args = None \/ arg_questions args = Some [] ->
  exists result tr',
    execute runner platform args tr = (Ok result, tr')
    /\ (success result = true ->
        exists value,
          output result = Some value /\ data result = Some (InputData value)).
Proof.
  intros Hq. unfold execute.
  destruct Hq as [Hq|Hq]; rewrite Hq.
  all: destruct (arg_prompt args) as [prompt|];
    [|eexists; eexists; split; [reflexivity|discriminate]].
  all: destruct (Js.truthy prompt); simpl;
    [|eexists; eexists; split; [reflexivity|discriminate]].
  all: destruct (String.eqb _ "dropdown" && missingOptions (arg_options args));
    [eexists; eexists; split; [reflexivity|discriminate]|].
  all: unfold tryCatch;
    destruct (platformSwitch _ _ _ _ _ _ _ _) as [show|];
    [|eexists; eexists; split; [reflexivity|discriminate]].
  all: unfold bind; destruct (show tr) as [[value|e] tr1];
    eexists; eexists; (split; [reflexivity|]); simpl;
    [intros _; now exists value|discriminate].
Qed.

(** X1.  A single-question request never makes [execute] reject, whatever
    the platform and whatever the exit status and the output of the
    processes: no outcome of the call is a rejection (an error of an
    adapter comes back as a result object).  And a result with
    [success: true] carries the answer both as [output] and as
    [data.input]. *)
Theorem execute_single_never_rejects (runner : Runner) (platform : string)
    (args : Args) (tr : Trace) :
  arg_questions args = None \/ arg_questions args = Some [] ->
  (forall (e : JsError) (tr' : Trace),
      execute runner platform args tr <> (Throw e, tr'))
  /\ (forall (result : ToolResult) (tr' : Trace),
         execute runner platform args tr = (Ok result, tr') ->
         success result = true ->
         exists value,
           output result = Some value /\ data result = Some (InputData value)).
Proof.
  intros Hq.
  destruct (execute_single_result runner platform args tr Hq)
    as (result0 & tr0 & Hexec & Hsuccess).
  split.
  - intros e tr'. rewrite Hexec. discriminate.
  - intros result tr'. rewrite Hexec. intros [= <- _]. exact Hsuccess.
Qed.

(** On macOS, a request answered [Ana]: the call does not reject, and the
    result carries [Ana] twice. *)
Lemma execute_single_never_rejects_example :
  execute (scripted [prints "Ana"]) "darwin"
    (mkArgs (Some "Name") None None None None None None) []
  <> (Throw (newError "Command failed"), [])
  /\ exists value,
       output {| success := true; output := Some "Ana"; error := None;
                 data := Some (InputData "Ana") |} = Some value
       /\ data {| success := true; output := Some "Ana"; error := None;
                  data := Some (InputData "Ana") |} = Some (InputData value).
Proof.
  destruct (execute_single_never_rejects (scripted [prints "Ana"]) "darwin"
              (mkArgs (Some "Name") None None None None None None) [])
    as [Hnever Hsuccess]; [now left|].
  split.
  - apply Hnever.
  - eapply Hsuccess; [vm_compute; reflexivity|reflexivity].
Defined.

(** X2.  In a chain, a dialog that rejects with an error other than a
    cancellation makes [handleChainedQuestions] reject with that very
    error: the answers given so far are not returned. *)
Theorem chain_rejection_propagates (runner : Runner) (platform : string)
    (before after : list Question) (question : Question)
    (kvs : list (string * string)) (tr tr1 tr2 : Trace) (show : M string)
    (failed : JsError) :
  Answered runner platform (List.length (before ++ question :: after)%list)
    0 before tr kvs tr1 ->
  dialogOf runner platform (List.length (before ++ question :: after)%list)
    (List.length before) question = Some show ->
  show tr1 = (Throw failed, tr2) ->
  isCancellation failed = false ->
  handleChainedQuestions runner platform (before ++ question :: after)%list tr =
  (Throw failed, tr2).
Proof.
  intros Hrun Hd Hs Hc.
  unfold handleChainedQuestions, bind. rewrite chainLoop_app.
  rewrite (chainLoop_Answered _ _ _ _ _ _ _ _ Hrun). simpl. unfold bind.
  now rewrite (questionStep_rejected _ _ _ _ _ _ _ _ _ _ Hd Hs Hc).
Qed.

Lemma chain_rejection_propagates_example :
  exists failed tr2,
    handleChainedQuestions (scripted [prints "Ana"; exits 1 "osascript: not allowed"])
      "darwin" [ask "What is your name?"; ask "Enter your email:"] [] =
    (Throw failed, tr2)
    /\ code failed = Some 1 /\ List.length tr2 = 2.
Proof.
  eexists. eexists. split.
  - eapply (chain_rejection_propagates
              (scripted [prints "Ana"; exits 1 "osascript: not allowed"]) "darwin"
              [ask "What is your name?"] [] (ask "Enter your email:") [("name", "Ana")] []).
    + eapply Answered_cons; [reflexivity|vm_compute; reflexivity|apply Answered_nil].
    + reflexivity.
    + vm_compute. reflexivity.
    + vm_compute. reflexivity.
  - split; reflexivity.
Defined.

(** X3.  On a platform other than darwin, win32 and linux nothing is ever
    invoked: every request, single or chained, resolves with a failure and
    leaves the trace as it was. *)
Theorem unsupported_platform_invokes_nothing (runner : Runner) (platform : string)
    (args : Args) (tr : Trace) :
  supported platform = false ->
  exists msg, execute runner platform args tr = (Ok (failure msg), tr).
Proof.
  intros Hp.
  assert (Hsingle :
    exists msg,
      match arg_prompt args with
      | None => ret promptRequired
      | Some prompt =>
          if negb (Js.truthy prompt) then ret promptRequired
          else
            let inputType := inputTypeOf (arg_type args) (arg_password args) in
            if String.eqb inputType "dropdown" && missingOptions (arg_options args)
            then ret (failure "Dropdown type requires options array")
            else
              tryCatch
                match platformSwitch runner platform inputType prompt (arg_options args)
                        (arg_default_value args)
                        (Some (Js.orElse (arg_title args) "Select Option"))
                        (Some (Js.orElse (arg_title args) "Input Required")) with
                | Some show =>
                    result <- show ;;
                    ret {| success := true; output := Some result; error := None;
                           data := Some (InputData result) |}
                | None => ret (failure ("Unsupported platform: " ++ platform))
                end
                (fun error =>
                   ret (failure ("Failed to show input dialog: " ++ message error)))
      end tr = (Ok (failure msg), tr)).
  { destruct (arg_prompt args) as [prompt|]; [|eexists; reflexivity].
    destruct (Js.truthy prompt); simpl; [|eexists; reflexivity].
    destruct (String.eqb _ "dropdown" && missingOptions (arg_options args));
      [eexists; reflexivity|].
    rewrite (platformSwitch_unsupported _ _ _ _ _ _ _ _ Hp). eexists. reflexivity. }
  unfold execute.
  destruct (arg_questions args) as [[|question rest]|]; try exact Hsingle.
  unfold handleChainedQuestions, bind. simpl. unfold bind, questionStep.
  destruct (q_prompt question) as [prompt|]; [|eexists; reflexivity].
  destruct (Js.truthy prompt); simpl; [|eexists; reflexivity].
  destruct (String.eqb _ "dropdown" && missingOptions (q_options question));
    [eexists; reflexivity|].
  rewrite (platformSwitch_unsupported _ _ _ _ _ _ _ _ Hp). eexists. reflexivity.
Qed.

Lemma unsupported_platform_invokes_nothing_example :
  exists msg,
    execute (scripted [prints "Ana"]) "freebsd"
      (mkArgs None None None None None None (Some [ask "What is your name?"])) [] =
    (Ok (failure msg), []).
Proof.
  apply (unsupported_platform_invokes_nothing (scripted [prints "Ana"]) "freebsd").
  reflexivity.
Defined.

(** ** The Windows adapters *)

(** X4.  The Windows adapters never resolve with an empty answer: when the
    PowerShell process exits with status 0 and prints nothing but white
    space, the text dialog rejects with the cancellation error of the input
    dialog and the dropdown with the one of the selection dialog, so an
    empty answer and a cancelled dialog are the same outcome. *)
Theorem windows_blank_output_is_cancellation (runner : Runner) (prompt : string)
    (options : list string) (defaultValue title : option string) (password : bool)
    (tr : Trace) :
  (forall inv, exitStatus (runner tr inv) = 0) ->
  (forall inv, Js.trim (stdout (runner tr inv)) = EmptyString) ->
  fst (showWindowsDialog runner prompt defaultValue title password tr) = Throw cancelInput
  /\ fst (showWindowsDropdown runner prompt options defaultValue title tr)
     = Throw cancelSelection.
Proof.
  intros Hexit Hblank.
  unfold showWindowsDialog, showWindowsDropdown, bind, execAsync.
  cbv zeta. rewrite !Hexit. cbn [Nat.eqb]. rewrite !Hblank. split; reflexivity.
Qed.

Lemma windows_blank_output_is_cancellation_example :
  fst (showWindowsDialog (scripted [prints "  "]) "Pick" None None false [])
  = Throw cancelInput
  /\ fst (showWindowsDropdown (scripted [prints "  "]) "Pick" ["a"; "b"] None None [])
     = Throw cancelSelection.
Proof.
  apply (windows_blank_output_is_cancellation (scripted [prints "  "]));
    intros inv; reflexivity.
Defined.

(** X5.  A Windows adapter that resolves does so with a non-empty
    answer. *)
Theorem windows_answers_are_nonempty (runner : Runner) (prompt : string)
    (options : list string) (defaultValue title : option string) (password : bool)
    (tr : Trace) (value : string) :
  fst (showWindowsDialog runner prompt defaultValue title password tr) = Ok value
  \/ fst (showWindowsDropdown runner prompt options defaultValue title tr) = Ok value ->
  value <> EmptyString.
Proof.
  unfold showWindowsDialog, showWindowsDropdown, bind, execAsync.
  intros [H|H]; revert H.
  all: destruct (Nat.eqb _ 0); [|discriminate].
  all: match goal with
       | |- context [Js.truthy (Js.trim ?o)] =>
           destruct (Js.truthy (Js.trim o)) eqn:Ht; [|discriminate];
           intros [= <-]; now apply truthy_nonempty
       end.
Qed.

Lemma windows_answers_are_nonempty_example :
  "Ana" <> EmptyString.
Proof.
  apply (windows_answers_are_nonempty (scripted [prints " Ana "]) "Name" []
           None None false [] "Ana").
  left. reflexivity.
Defined.

(** ** The Linux dispatchers *)

Lemma showTerminalDropdown_result (runner : Runner) (prompt : string)
    (options : list string) (defaultValue : option string) (tr : Trace) :
  (exists value, fst (showTerminalDropdown runner prompt options defaultValue tr) = Ok value)
  \/ fst (showTerminalDropdown runner prompt options defaultValue tr)
     = Throw terminalSelectionError.
Proof.
  unfold showTerminalDropdown, tryCatch, bind, execAsync.
  destruct (Nat.eqb _ 0); simpl; [left; eexists; reflexivity|now right].
Qed.

Lemma showLinuxDropdown_result (runner : Runner) (prompt : string)
    (options : list string) (defaultValue title : option string) (tr : Trace) :
  (exists value,
      fst (showLinuxDropdown runner prompt options defaultValue title tr) = Ok value)
  \/ fst (showLinuxDropdown runner prompt options defaultValue title tr)
     = Throw terminalSelectionError.
Proof.
  remember (showLinuxDropdown runner prompt options defaultValue title tr) as r eqn:Hr.
  unfold showLinuxDropdown, tryCatch at 1, bind at 1 in Hr.
  assert (Hinner : forall tr1,
    (exists value,
        fst (tryCatch
               (_ <- execAsync runner "which kdialog" None ;;
                showKdialogDropdown runner prompt options defaultValue title)
               (fun _ => showTerminalDropdown runner prompt options defaultValue) tr1)
        = Ok value)
    \/ fst (tryCatch
              (_ <- execAsync runner "which kdialog" None ;;
               showKdialogDropdown runner prompt options defaultValue title)
              (fun _ => showTerminalDropdown runner prompt options defaultValue) tr1)
       = Throw terminalSelectionError).
  { intros tr1.
    remember (tryCatch _ _ tr1) as r1 eqn:Hr1.
    unfold tryCatch at 1, bind at 1 in Hr1.
    destruct (execAsync runner "which kdialog" None tr1) as [[out|e] tr2].
    - destruct (showKdialogDropdown runner prompt options defaultValue title tr2)
        as [[value|e] tr3]; subst r1.
      + left. now exists value.
      + apply showTerminalDropdown_result.
    - subst r1. apply showTerminalDropdown_result. }
  destruct (execAsync runner "which zenity" None tr) as [[out|e] tr1].
  - destruct (showZenityDropdown runner prompt options defaultValue title tr1)
      as [[value|e] tr2]; subst r.
    + left. now exists value.
    + apply Hinner.
  - subst r. apply Hinner.
Qed.

(** X6.  On Linux the dispatchers reject in one way only, with the error
    of the terminal adapter ([Failed to read input from terminal] for a
    text dialog, [Failed to read selection from terminal] for a dropdown):
    every rejection of zenity and kdialog, their cancellation errors
    included, is caught and answered by the next adapter. *)
Theorem linux_rejects_only_with_terminal_error (runner : Runner) (prompt : string)
    (options : list string) (defaultValue title : option string) (password : bool)
    (tr : Trace) (e : JsError) :
  (fst (showLinuxDialog runner prompt defaultValue title password tr) = Throw e ->
   e = terminalInputError)
  /\ (fst (showLinuxDropdown runner prompt options defaultValue title tr) = Throw e ->
      e = terminalSelectionError).
Proof.
  split.
  - destruct (showLinuxDialog_result runner prompt defaultValue title password tr)
      as [[value ->]| ->]; [discriminate|now intros [= <-]].
  - destruct (showLinuxDropdown_result runner prompt options defaultValue title tr)
      as [[value ->]| ->]; [discriminate|now intros [= <-]].
Qed.

Lemma linux_rejects_only_with_terminal_error_example :
  fst (showLinuxDialog (scripted [prints "/usr/bin/zenity"; exits 1 EmptyString])
         "Enter code 1" None None false [])
  = Throw (newError "Failed to read input from terminal")
  /\ newError "Failed to read input from terminal" = terminalInputError.
Proof.
  split.
  - vm_compute. reflexivity.
  - apply (proj1 (linux_rejects_only_with_terminal_error
                    (scripted [prints "/usr/bin/zenity"; exits 1 EmptyString])
                    "Enter code 1" [] None None false []
                    (newError "Failed to read input from terminal"))).
    vm_compute. reflexivity.
Defined.

Lemma questionStep_Return_cause (runner : Runner) (platform : string) (n i : nat)
    (question : Question) (answers : AnswerSet) (tr tr' : Trace) (result : ToolResult) :
  questionStep runner platform n i question answers tr = (Ok (Return result), tr') ->
  data result = None
  \/ exists show e,
       dialogOf runner platform n i question = Some show
       /\ show tr = (Throw e, tr')
       /\ isCancellation e = true.
Proof.
  destruct (dialogOf runner platform n i question) as [show|] eqn:Hd.
  - rewrite (questionStep_dialog _ _ _ _ _ _ _ Hd). unfold tryCatch, bind.
    destruct (show tr) as [[value|e] tr1] eqn:Hs; [discriminate|].
    destruct (isCancellation e) eqn:Hc; [|discriminate].
    intros [= _ <-]. right. now exists show, e.
  - revert Hd. unfold dialogOf, questionStep, dropdownWithoutOptions, promptOf.
    destruct (q_prompt question) as [prompt|]; simpl; [|intros _ [= <- _]; now left].
    destruct (Js.truthy prompt); simpl; [|intros _ [= <- _]; now left].
    destruct (String.eqb (questionInputType question) "dropdown"
              && missingOptions (q_options question)); simpl;
      [intros _ [= <- _]; now left|].
    intros ->. intros [= <- _]. now left.
Qed.

Lemma dialogOf_linux_no_cancellation (runner : Runner) (n i : nat) (question : Question)
    (show : M string) (tr tr' : Trace) (e : JsError) :
  dialogOf runner "linux" n i question = Some show ->
  show tr = (Throw e, tr') ->
  isCancellation e = false.
Proof.
  unfold dialogOf.
  destruct (Js.truthyOpt (q_prompt question) && negb (dropdownWithoutOptions question));
    [|discriminate].
  unfold platformSwitch. cbn [String.eqb Ascii.eqb Bool.eqb].
  destruct (q_options question) as [opts|];
    [destruct (String.eqb (questionInputType question) "dropdown")|].
  all: intros [= <-] Hs.
  - destruct (showLinuxDropdown_result runner (promptOf question) opts
                (q_default_value question) (Some (questionTitle n i question)) tr)
      as [[value H]|H]; rewrite Hs in H; simpl in H; [discriminate|].
    now injection H as ->.
  - destruct (showLinuxDialog_result runner (promptOf question)
                (q_default_value question) (Some (questionTitle n i question))
                (String.eqb (questionInputType question) "password") tr)
      as [[value H]|H]; rewrite Hs in H; simpl in H; [discriminate|].
    now injection H as ->.
  - destruct (showLinuxDialog_result runner (promptOf question)
                (q_default_value question) (Some (questionTitle n i question))
                (String.eqb (questionInputType question) "password") tr)
      as [[value H]|H]; rewrite Hs in H; simpl in H; [discriminate|].
    now injection H as ->.
Qed.

Lemma chainLoop_linux_Return (runner : Runner) (n : nat) (questions : list Question) :
  forall (i : nat) (answers : AnswerSet) (tr tr' : Trace) (result : ToolResult),
    chainLoop runner "linux" n i questions answers tr = (Ok (Return result), tr') ->
    data result = None.
Proof.
  induction questions as [|q rest IH]; intros i answers tr tr' result; simpl.
  - discriminate.
  - unfold bind.
    destruct (questionStep runner "linux" n i q answers tr)
      as [[[answers1|result1]|e] tr1] eqn:Hq; [| |discriminate].
    + apply IH.
    + intros [= <- <-].
      destruct (questionStep_Return_cause _ _ _ _ _ _ _ _ _ Hq)
        as [Hnone|(show & e & Hd & Hs & Hc)]; [exact Hnone|].
      rewrite (dialogOf_linux_no_cancellation _ _ _ _ _ _ _ _ Hd Hs) in Hc.
      discriminate.
Qed.

(** X7.  On Linux a chain never ends in the cancellation result: a result
    of [handleChainedQuestions] that carries answers is the complete one,
    with [success: true].  A chain the user gives up ends in a rejection
    or goes on with the terminal prompt instead. *)
Theorem linux_chain_never_partial (runner : Runner) (questions : list Question)
    (tr tr' : Trace) (result : ToolResult) (answers : AnswerSet) :
  handleChainedQuestions runner "linux" questions tr = (Ok result, tr') ->
  answersOf result = Some answers ->
  success result = true
  /\ data result = Some (AnswersData answers (List.length questions)).
Proof.
  unfold handleChainedQuestions, bind.
  destruct (chainLoop runner "linux" (List.length questions) 0 questions [] tr)
    as [[[answers1|result1]|e] tr1] eqn:Hloop; [| |discriminate].
  - intros [= <- _] [= <-]. split; reflexivity.
  - intros [= <- _] Ha. unfold answersOf in Ha.
    rewrite (chainLoop_linux_Return _ _ _ _ _ _ _ _ Hloop) in Ha. discriminate.
Qed.

Lemma linux_chain_never_partial_example :
  success (completed [("name", "Ana")] 1) = true
  /\ data (completed [("name", "Ana")] 1) = Some (AnswersData [("name", "Ana")] 1).
Proof.
  apply (linux_chain_never_partial
           (scripted [exits 1 EmptyString; exits 1 EmptyString; prints "Ana"])
           [ask "What is your name?"] []
           (snd (handleChainedQuestions
                   (scripted [exits 1 EmptyString; exits 1 EmptyString; prints "Ana"])
                   "linux" [ask "What is your name?"] []))
           (completed [("name", "Ana")] 1) [("name", "Ana")]);
    reflexivity.
Defined.

(** C1.  A cancellation does not always end a chain in the cancellation
    result with the answers so far.
    - On Linux it never does: no result of [handleChainedQuestions] is a
      cancellation result, whatever the processes do.  With zenity there,
      three questions, the first answered [Ana] and the second dialog
      cancelled (zenity ends with status 1 and says nothing), the
      cancellation is caught by [showLinuxDialog], kdialog is probed and
      the question goes to the terminal: when the [read] script fails the
      chain rejects with [Failed to read input from terminal], and when it
      prints a line the chain takes that line as the second answer and
      goes on to the third question.
    - The same three questions on macOS, the second dialog cancelled, do
      return [answeredQuestions: 1] and the first answer.
    - On macOS, a first question that derives the key [__proto__],
      answered, and a second one cancelled: the result counts one answered
      question, and its partial answers are empty. *)
Theorem cancellation_is_not_always_reported :
  (forall (runner : Runner) (questions : list Question) (tr tr' : Trace)
          (result : ToolResult) (i : nat) (partial : AnswerSet),
      handleChainedQuestions runner "linux" questions tr = (Ok result, tr') ->
      data result <> Some (PartialData i partial))
  /\ fst (handleChainedQuestions
            (scripted [prints "/usr/bin/zenity"; prints "Ana";
                       prints "/usr/bin/zenity"; exits 1 EmptyString;
                       exits 1 EmptyString; exits 1 EmptyString])
            "linux"
            [ask "What is your name?"; ask "Enter your email:"; ask "Your age?"] [])
     = Throw terminalInputError
  /\ fst (handleChainedQuestions
            (scripted [prints "/usr/bin/zenity"; prints "Ana";
                       prints "/usr/bin/zenity"; exits 1 EmptyString;
                       exits 1 EmptyString; prints "typed";
                       prints "/usr/bin/zenity"; prints "33"])
            "linux"
            [ask "What is your name?"; ask "Enter your email:"; ask "Your age?"] [])
     = Ok (completed [("name", "Ana"); ("email", "typed"); ("age", "33")] 3)
  /\ fst (handleChainedQuestions (scripted [prints "Ana"; userCanceled]) "darwin"
            [ask "What is your name?"; ask "Enter your email:"; ask "Your age?"] [])
     = Ok (cancelledAt 1 [("name", "Ana")])
  /\ fst (handleChainedQuestions (scripted [prints "Ana"; userCanceled]) "darwin"
            [ask "Enter __proto__"; ask "Your age?"] [])
     = Ok (cancelledAt 1 []).
Proof.
  split; [|repeat split; vm_compute; reflexivity].
  intros runner questions tr tr' result i partial.
  unfold handleChainedQuestions, bind.
  destruct (chainLoop runner "linux" (List.length questions) 0 questions [] tr)
    as [[[answers1|result1]|e] tr1] eqn:Hloop; [| |discriminate].
  - intros [= <- _]. discriminate.
  - intros [= <- _].
    rewrite (chainLoop_linux_Return _ _ _ _ _ _ _ _ Hloop). discriminate.
Qed.

(** ** Answers of the text dialogs *)

Lemma trimStart_head (s : string) :
  match Js.trimStart s with
  | EmptyString => True
  | String c _ => Js.isSpaceChar c = false
  end.
Proof.
  induction s as [|c s IH]; simpl; [exact I|].
  destruct (Js.isSpaceChar c) eqn:Hc; [exact IH|exact Hc].
Qed.

Lemma trimEnd_head (c : ascii) (s : string) :
  Js.isSpaceChar c = false ->
  exists t, Js.trimEnd (String c s) = String c t.
Proof.
  intros Hc. simpl. destruct (Js.trimEnd s) as [|d u].
  - rewrite Hc. now exists EmptyString.
  - now exists (String d u).
Qed.

Lemma trimEnd_idempotent (s : string) :
  Js.trimEnd (Js.trimEnd s) = Js.trimEnd s.
Proof.
  induction s as [|c s IH]; simpl; [reflexivity|].
  destruct (Js.trimEnd s) as [|d u] eqn:Ht.
  - destruct (Js.isSpaceChar c) eqn:Hc; simpl; [reflexivity|now rewrite Hc].
  - change (Js.trimEnd (String c (String d u)))
      with (match Js.trimEnd (String d u) with
            | EmptyString => if Js.isSpaceChar c then EmptyString else Js.str c
            | t => String c t
            end).
    now rewrite IH.
Qed.

Lemma trim_idempotent (s : string) :
  Js.trim (Js.trim s) = Js.trim s.
Proof.
  unfold Js.trim.
  pose proof (trimStart_head s) as Hhead.
  destruct (Js.trimStart s) as [|c u]; [reflexivity|].
  destruct (trimEnd_head c u Hhead) as [t Ht].
  rewrite Ht. simpl Js.trimStart. rewrite Hhead. rewrite <- Ht.
  apply trimEnd_idempotent.
Qed.

(** What the text adapters resolve with is a trimmed standard output. *)
Lemma trimmed_bind (runner : Runner) (cmd : string) (sh : option string)
    (h : JsError -> M string) (tr tr' : Trace) (value : string) :
  tryCatch (out <- execAsync runner cmd sh ;; ret (Js.trim out)) h tr = (Ok value, tr') ->
  (forall e tr1 v tr2, h e tr1 = (Ok v, tr2) -> exists out, v = Js.trim out) ->
  exists out, value = Js.trim out.
Proof.
  unfold tryCatch, bind, execAsync, ret.
  destruct (Nat.eqb _ 0).
  - intros [= <- _] _. eexists. reflexivity.
  - intros H Hh. eapply Hh. exact H.
Qed.

Lemma throwing_handler (e : JsError) (b : bool) (e1 e2 : JsError)
    (tr1 tr2 : Trace) (v : string) :
  (if b then throw e1 else throw e2) tr1 = (Ok v, tr2) ->
  exists out, v = Js.trim out.
Proof. destruct b; discriminate. Qed.

Lemma showZenityDialog_trimmed (runner : Runner) (prompt : string)
    (defaultValue title : option string) (password : bool) (tr tr' : Trace)
    (value : string) :
  showZenityDialog runner prompt defaultValue title password tr = (Ok value, tr') ->
  exists out, value = Js.trim out.
Proof.
  unfold showZenityDialog. intros H. eapply trimmed_bind; [exact H|].
  intros e tr1 v tr2. apply (throwing_handler e).
Qed.

Lemma showKdialogDialog_trimmed (runner : Runner) (prompt : string)
    (defaultValue title : option string) (password : bool) (tr tr' : Trace)
    (value : string) :
  showKdialogDialog runner prompt defaultValue title password tr = (Ok value, tr') ->
  exists out, value = Js.trim out.
Proof.
  unfold showKdialogDialog. intros H. eapply trimmed_bind; [exact H|].
  intros e tr1 v tr2. apply (throwing_handler e).
Qed.

Lemma showTerminalInput_trimmed (runner : Runner) (prompt : string)
    (defaultValue : option string) (password : bool) (tr tr' : Trace)
    (value : string) :
  showTerminalInput runner prompt defaultValue password tr = (Ok value, tr') ->
  exists out, value = Js.trim out.
Proof.
  unfold showTerminalInput. intros H. eapply trimmed_bind; [exact H|].
  intros e tr1 v tr2. discriminate.
Qed.

Lemma showLinuxDialog_trimmed (runner : Runner) (prompt : string)
    (defaultValue title : option string) (password : bool) (tr tr' : Trace)
    (value : string) :
  showLinuxDialog runner prompt defaultValue title password tr = (Ok value, tr') ->
  exists out, value = Js.trim out.
Proof.
  assert (Hk : forall tr1,
             kdialogOrTerminal runner prompt defaultValue title password tr1
             = (Ok value, tr') -> exists out, value = Js.trim out).
  { intros tr1. unfold kdialogOrTerminal, tryCatch at 1, bind at 1.
    destruct (execAsync runner "which kdialog" None tr1) as [[o|e] tr2].
    - destruct (showKdialogDialog runner prompt defaultValue title password tr2)
        as [[v|e] tr3] eqn:Hkd.
      + intros [= <- _]. eapply showKdialogDialog_trimmed. exact Hkd.
      + apply showTerminalInput_trimmed.
    - apply showTerminalInput_trimmed. }
  unfold showLinuxDialog, tryCatch at 1, bind at 1.
  destruct (execAsync runner "which zenity" None tr) as [[o|e] tr1].
  - destruct (showZenityDialog runner prompt defaultValue title password tr1)
      as [[v|e] tr2] eqn:Hz.
    + intros [= <- _]. eapply showZenityDialog_trimmed. exact Hz.
    + apply Hk.
  - apply Hk.
Qed.

(** X8.  On every platform the answer of a text or password dialog has no
    white space at its start or at its end: trimming it again changes
    nothing. *)
Theorem text_answers_are_trimmed (runner : Runner) (platform inputType prompt : string)
    (default_value dropdownTitle dialogTitle : option string) (show : M string)
    (tr tr' : Trace) (value : string) :
  platformSwitch runner platform inputType prompt None default_value
    dropdownTitle dialogTitle = Some show ->
  show tr = (Ok value, tr') ->
  Js.trim value = value.
Proof.
  intros Hswitch Hshow.
  assert (H : exists out, value = Js.trim out).
  { revert Hswitch. unfold platformSwitch.
    destruct (String.eqb platform "darwin");
      [|destruct (String.eqb platform "win32");
        [|destruct (String.eqb platform "linux"); [|discriminate]]];
      intros [= <-].
    - unfold showMacOSDialog in Hshow. eapply trimmed_bind; [exact Hshow|].
      intros e tr1 v tr2. apply (throwing_handler e).
    - revert Hshow. unfold showWindowsDialog, bind, execAsync.
      destruct (Nat.eqb _ 0); [|discriminate].
      match goal with
      | |- context [Js.truthy (Js.trim ?o)] =>
          destruct (Js.truthy (Js.trim o)); [|discriminate];
          intros [= <- _]; now exists o
      end.
    - eapply showLinuxDialog_trimmed. exact Hshow. }
  destruct H as [out ->]. apply trim_idempotent.
Qed.

Lemma text_answers_are_trimmed_example :
  Js.trim "Ana Lee" = "Ana Lee".
Proof.
  apply (text_answers_are_trimmed (scripted [prints "  Ana Lee  "]) "darwin" "text" "Name"
           None None None
           (showMacOSDialog (scripted [prints "  Ana Lee  "]) "Name" None None false)
           []
           (snd (showMacOSDialog (scripted [prints "  Ana Lee  "]) "Name" None None false []))
           "Ana Lee");
    reflexivity.
Defined.

(** ** The macOS adapters *)

Lemma includes_append (p a b : string) :
  Js.includes p b = true -> Js.includes p (a ++ b) = true.
Proof.
  intros Hb. induction a as [|c a IH]; simpl; [exact Hb|].
  rewrite IH. apply Bool.orb_true_r.
Qed.

(** X9.  The macOS adapters take a failed [osascript] run for a
    cancellation whenever its standard error holds [User canceled]: the
    text dialog then rejects with the cancellation error of the input
    dialog and the dropdown, given at least one option, with the one of
    the selection dialog; the orchestrator recognises both. *)
Theorem macos_user_canceled_is_cancellation (runner : Runner) (prompt option1 : string)
    (options : list string) (defaultValue title : option string) (password : bool)
    (tr : Trace) :
  (forall inv, exitStatus (runner tr inv) <> 0) ->
  (forall inv, Js.includes "User canceled" (stderr (runner tr inv)) = true) ->
  fst (showMacOSDialog runner prompt defaultValue title password tr) = Throw cancelInput
  /\ fst (showMacOSDropdown runner prompt (option1 :: options) defaultValue title tr)
     = Throw cancelSelection
  /\ isCancellation cancelInput = true
  /\ isCancellation cancelSelection = true.
Proof.
  intros Hexit Hcancel.
  assert (Hmsg : forall cmd inv,
             Js.includes "User canceled"
               ("Command failed: " ++ cmd ++ nl ++ stderr (runner tr inv)) = true).
  { intros cmd inv. apply includes_append. apply includes_append.
    apply includes_append. apply Hcancel. }
  split; [|split; [|split; reflexivity]].
  - unfold showMacOSDialog, tryCatch, bind, execAsync. cbv zeta.
    match goal with
    | |- context [Nat.eqb (exitStatus (runner tr ?i)) 0] =>
        destruct (Nat.eqb_spec (exitStatus (runner tr i)) 0) as [Hz|_];
          [now apply Hexit in Hz|]
    end.
    cbn [message]. rewrite Hmsg. reflexivity.
  - unfold showMacOSDropdown.
    assert (Hdefault : exists d,
               (if Js.truthyOpt defaultValue then defaultValue
                else nth_error (option1 :: options) 0) = Some d).
    { destruct defaultValue as [d|]; simpl; [|now exists option1].
      destruct (Js.truthy d); [now exists d|now exists option1]. }
    destruct Hdefault as [d ->].
    unfold tryCatch, bind, execAsync. cbv zeta.
    match goal with
    | |- context [Nat.eqb (exitStatus (runner tr ?i)) 0] =>
        destruct (Nat.eqb_spec (exitStatus (runner tr i)) 0) as [Hz|_];
          [now apply Hexit in Hz|]
    end.
    cbn [message]. rewrite Hmsg. reflexivity.
Qed.

Lemma macos_user_canceled_is_cancellation_example :
  fst (showMacOSDialog (scripted [userCanceled]) "Name" None None false [])
  = Throw cancelInput
  /\ fst (showMacOSDropdown (scripted [userCanceled]) "Name" ["a"; "b"] None None [])
     = Throw cancelSelection
  /\ isCancellation cancelInput = true
  /\ isCancellation cancelSelection = true.
Proof.
  apply (macos_user_canceled_is_cancellation (scripted [userCanceled]) "Name" "a" ["b"]
           None None false []).
  - intros inv. discriminate.
  - intros inv. reflexivity.
Defined.

(** ** How many processes a dialog starts *)

Section Counting.

Variable runner : Runner.

Lemma invokesOnce_guarded {A : Type} (cmd : string) (sh : option string)
    (k : string -> M A) (h : JsError -> M A) :
  (forall out tr, snd (k out tr) = tr) ->
  (forall e tr, snd (h e tr) = tr) ->
  invokesOnce (tryCatch (out <- execAsync runner cmd sh ;; k out) h).
Proof.
  intros Hk Hh tr. unfold tryCatch, bind, execAsync. cbv zeta.
  destruct (Nat.eqb _ 0).
  - match goal with
    | |- context [k ?o ?t] => specialize (Hk o t); destruct (k o t) as [[a|e] tr1]
    end; simpl in *; subst.
    + rewrite List.length_app. simpl. lia.
    + rewrite Hh, List.length_app. simpl. lia.
  - rewrite Hh, List.length_app. simpl. lia.
Qed.

Lemma invokesOnce_bare {A : Type} (cmd : string) (sh : option string) (k : string -> M A) :
  (forall out tr, snd (k out tr) = tr) ->
  invokesOnce (out <- execAsync runner cmd sh ;; k out).
Proof.
  intros Hk tr. unfold bind, execAsync. cbv zeta.
  destruct (Nat.eqb _ 0); [rewrite Hk|]; simpl; rewrite List.length_app; simpl; lia.
Qed.

Lemma snd_ret {A : Type} (a : A) (tr : Trace) : snd (ret a tr) = tr.
Proof. reflexivity. Qed.

Lemma snd_throw_if {A : Type} (b : bool) (e1 e2 : JsError) (tr : Trace) :
  snd ((if b then @throw A e1 else throw e2) tr) = tr.
Proof. now destruct b. Qed.

Lemma snd_ret_or_throw {A : Type} (b : bool) (a : A) (e : JsError) (tr : Trace) :
  snd ((if b then ret a else throw e) tr) = tr.
Proof. now destruct b. Qed.

Lemma invokesOnce_showMacOSDialog (prompt : string) (defaultValue title : option string)
    (password : bool) :
  invokesOnce (showMacOSDialog runner prompt defaultValue title password).
Proof.
  unfold showMacOSDialog. apply invokesOnce_guarded.
  - intros; apply snd_ret.
  - intros; apply snd_throw_if.
Qed.

Lemma invokesOnce_showMacOSDropdown (prompt option1 : string) (options : list string)
    (defaultValue title : option string) :
  invokesOnce (showMacOSDropdown runner prompt (option1 :: options) defaultValue title).
Proof.
  unfold showMacOSDropdown.
  assert (Hdefault : exists d,
             (if Js.truthyOpt defaultValue then defaultValue
              else nth_error (option1 :: options) 0) = Some d).
  { destruct defaultValue as [d|]; simpl; [|now exists option1].
    destruct (Js.truthy d); [now exists d|now exists option1]. }
  destruct Hdefault as [d ->]. apply invokesOnce_guarded.
  - intros; apply snd_ret.
  - intros; apply snd_throw_if.
Qed.

Lemma invokesOnce_showWindowsDialog (prompt : string) (defaultValue title : option string)
    (password : bool) :
  invokesOnce (showWindowsDialog runner prompt defaultValue title password).
Proof.
  unfold showWindowsDialog. apply invokesOnce_bare.
  intros; apply snd_ret_or_throw.
Qed.

Lemma invokesOnce_showWindowsDropdown (prompt : string) (options : list string)
    (defaultValue title : option string) :
  invokesOnce (showWindowsDropdown runner prompt options defaultValue title).
Proof.
  unfold showWindowsDropdown. apply invokesOnce_bare.
  intros; apply snd_ret_or_throw.
Qed.

Lemma dialogOf_invokesOnce (platform : string) (n i : nat) (question : Question)
    (show : M string) :
  platform = "darwin" \/ platform = "win32" ->
  dialogOf runner platform n i question = Some show ->
  invokesOnce show.
Proof.
  intros Hp. unfold dialogOf, dropdownWithoutOptions, platformSwitch.
  destruct (Js.truthyOpt (q_prompt question)); simpl; [|discriminate].
  destruct (q_options question) as [[|option1 options]|]; simpl.
  - destruct (String.eqb (questionInputType question) "dropdown"); simpl;
      [discriminate|].
    destruct Hp as [-> | ->]; simpl; intros [= <-].
    + apply invokesOnce_showMacOSDialog.
    + apply invokesOnce_showWindowsDialog.
  - destruct (String.eqb (questionInputType question) "dropdown"); simpl;
      destruct Hp as [-> | ->]; simpl; intros [= <-].
    + apply invokesOnce_showMacOSDropdown.
    + apply invokesOnce_showWindowsDropdown.
    + apply invokesOnce_showMacOSDialog.
    + apply invokesOnce_showWindowsDialog.
  - destruct (String.eqb (questionInputType question) "dropdown"); simpl;
      [discriminate|].
    destruct Hp as [-> | ->]; simpl; intros [= <-].
    + apply invokesOnce_showMacOSDialog.
    + apply invokesOnce_showWindowsDialog.
Qed.

(** X10.  On macOS and on Windows every question of a chain costs exactly
    one process: when the dialogs of a list of questions have all
    resolved, the trace has grown by the number of questions. *)
Theorem one_process_per_question (platform : string) (n i : nat)
    (questions : list Question) (tr tr' : Trace) (kvs : list (string * string)) :
  platform = "darwin" \/ platform = "win32" ->
  Answered runner platform n i questions tr kvs tr' ->
  List.length tr' = List.length tr + List.length questions.
Proof.
  intros Hp. induction 1 as [i tr|i question rest show value tr tr1 tr2 kvs Hd Hs _ IH].
  - simpl. lia.
  - pose proof (dialogOf_invokesOnce platform n i question show Hp Hd tr) as Hone.
    rewrite Hs in Hone. simpl in *. lia.
Qed.

End Counting.

Lemma one_process_per_question_example :
  List.length
    (snd (handleChainedQuestions (scripted [prints "Ana"; prints "a@x.com"]) "darwin"
            [ask "What is your name?"; ask "Enter your email:"] []))
  = 0 + 2.
Proof.
  apply (one_process_per_question (scripted [prints "Ana"; prints "a@x.com"]) "darwin"
           2 0 [ask "What is your name?"; ask "Enter your email:"] []
           _ [("name", "Ana"); ("email", "a@x.com")]).
  - now left.
  - eapply Answered_cons; [reflexivity|vm_compute; reflexivity|].
    eapply Answered_cons; [reflexivity|vm_compute; reflexivity|].
    apply Answered_nil.
Defined.

Section LinuxCounting.

Variable runner : Runner.

(** The shape the two Linux dispatchers share: a probe and an adapter, and
    in the [catch] block the same again with the terminal adapter as the
    last resort. *)
Lemma fallback_chain_bounds (zenity kdialog terminal : M string) (tr : Trace) :
  invokesOnce zenity -> invokesOnce kdialog -> invokesOnce terminal ->
  List.length tr + 2
  <= List.length
       (snd (tryCatch (_ <- execAsync runner "which zenity" None ;; zenity)
               (fun _ => tryCatch (_ <- execAsync runner "which kdialog" None ;; kdialog)
                           (fun _ => terminal)) tr))
  <= List.length tr + 5.
Proof.
  intros Hz Hk Ht.
  assert (Hprobe : forall cmd tr1,
             List.length (snd (execAsync runner cmd None tr1)) = S (List.length tr1)).
  { intros cmd tr1. unfold execAsync. simpl. rewrite List.length_app. simpl. lia. }
  assert (Hinner : forall tr1,
             List.length tr1 + 2
             <= List.length
                  (snd (tryCatch (_ <- execAsync runner "which kdialog" None ;; kdialog)
                          (fun _ => terminal) tr1))
             <= List.length tr1 + 3).
  { intros tr1. unfold tryCatch, bind.
    pose proof (Hprobe "which kdialog" tr1) as Hp.
    destruct (execAsync runner "which kdialog" None tr1) as [[o|e] tr2]; simpl in Hp.
    - pose proof (Hk tr2) as Hk2.
      destruct (kdialog tr2) as [[v|e] tr3]; simpl in *.
      + lia.
      + rewrite Ht. lia.
    - rewrite Ht. lia. }
  remember (tryCatch (_ <- execAsync runner "which zenity" None ;; zenity)
              (fun _ => tryCatch (_ <- execAsync runner "which kdialog" None ;; kdialog)
                          (fun _ => terminal)) tr) as r eqn:Hr.
  unfold tryCatch at 1, bind at 1 in Hr.
  pose proof (Hprobe "which zenity" tr) as Hp.
  destruct (execAsync runner "which zenity" None tr) as [[o|e] tr1]; simpl in Hp.
  - pose proof (Hz tr1) as Hz1.
    destruct (zenity tr1) as [[v|e] tr2]; simpl in Hz1; subst r.
    + simpl. lia.
    + specialize (Hinner tr2). lia.
  - subst r. specialize (Hinner tr1). lia.
Qed.

Lemma invokesOnce_showTerminalInput (prompt : string) (defaultValue : option string)
    (password : bool) :
  invokesOnce (showTerminalInput runner prompt defaultValue password).
Proof.
  intros tr. rewrite showTerminalInput_trace, List.length_app. simpl. lia.
Qed.

Lemma invokesOnce_showZenityDialog (prompt : string) (defaultValue title : option string)
    (password : bool) :
  invokesOnce (showZenityDialog runner prompt defaultValue title password).
Proof.
  unfold showZenityDialog. apply invokesOnce_guarded.
  - intros; apply snd_ret.
  - intros; apply snd_throw_if.
Qed.

Lemma invokesOnce_showKdialogDialog (prompt : string) (defaultValue title : option string)
    (password : bool) :
  invokesOnce (showKdialogDialog runner prompt defaultValue title password).
Proof.
  unfold showKdialogDialog. apply invokesOnce_guarded.
  - intros; apply snd_ret.
  - intros; apply snd_throw_if.
Qed.

Lemma invokesOnce_showZenityDropdown (prompt : string) (options : list string)
    (defaultValue title : option string) :
  invokesOnce (showZenityDropdown runner prompt options defaultValue title).
Proof.
  unfold showZenityDropdown. apply invokesOnce_guarded.
  - intros; apply snd_ret.
  - intros; apply snd_throw_if.
Qed.

Lemma invokesOnce_showKdialogDropdown (prompt : string) (options : list string)
    (defaultValue title : option string) :
  invokesOnce (showKdialogDropdown runner prompt options defaultValue title).
Proof.
  unfold showKdialogDropdown. apply invokesOnce_guarded.
  - intros; apply snd_ret.
  - intros; apply snd_throw_if.
Qed.

Lemma invokesOnce_showTerminalDropdown (prompt : string) (options : list string)
    (defaultValue : option string) :
  invokesOnce (showTerminalDropdown runner prompt options defaultValue).
Proof.
  unfold showTerminalDropdown. apply invokesOnce_guarded.
  - intros; apply snd_ret.
  - intros; reflexivity.
Qed.

(** X11.  A Linux dialog, text or dropdown, starts at least two and at most
    five processes: the zenity probe and zenity at best, and both probes,
    both graphical adapters and the terminal script at worst. *)
Theorem linux_dialog_process_bounds (prompt : string) (options : list string)
    (defaultValue title : option string) (password : bool) (tr : Trace) :
  (List.length tr + 2
   <= List.length (snd (showLinuxDialog runner prompt defaultValue title password tr))
   <= List.length tr + 5)
  /\ (List.length tr + 2
      <= List.length (snd (showLinuxDropdown runner prompt options defaultValue title tr))
      <= List.length tr + 5).
Proof.
  split.
  - unfold showLinuxDialog, kdialogOrTerminal. apply fallback_chain_bounds.
    + apply invokesOnce_showZenityDialog.
    + apply invokesOnce_showKdialogDialog.
    + apply invokesOnce_showTerminalInput.
  - unfold showLinuxDropdown. apply fallback_chain_bounds.
    + apply invokesOnce_showZenityDropdown.
    + apply invokesOnce_showKdialogDropdown.
    + apply invokesOnce_showTerminalDropdown.
Qed.

End LinuxCounting.

(** ** The answers of a completed chain *)

Lemma setAnswer_fresh (key value : string) (answers : AnswerSet) :
  key <> protoKey ->
  ~ In key (map fst answers) ->
  setAnswer key value answers = (answers ++ [(key, value)])%list.
Proof.
  intros Hkey. rewrite setAnswer_own by assumption.
  induction answers as [|[k v] rest IH]; simpl; intros Hnotin; [reflexivity|].
  destruct (String.eqb_spec k key) as [->|Hne].
  - exfalso. apply Hnotin. now left.
  - rewrite IH; [reflexivity|]. intros Hin. apply Hnotin. now right.
Qed.

Lemma collect_distinct (kvs : list (string * string)) :
  ~ In protoKey (map fst kvs) ->
  forall answers : AnswerSet,
    NoDup (map fst (answers ++ kvs)%list) ->
    collect kvs answers = (answers ++ kvs)%list.
Proof.
  induction kvs as [|[k v] kvs IH]; intros Hproto answers Hnodup; simpl.
  - now rewrite List.app_nil_r.
  - assert (Hfresh : ~ In k (map fst answers)).
    { rewrite List.map_app in Hnodup. simpl in Hnodup.
      apply List.NoDup_remove_2 in Hnodup.
      intros Hin. apply Hnodup. apply List.in_or_app. now left. }
    assert (Hkey : k <> protoKey) by (intros ->; apply Hproto; now left).
    rewrite (setAnswer_fresh k v answers Hkey Hfresh).
    rewrite IH; [|intros Hin; apply Hproto; now right|];
      rewrite <- List.app_assoc; [reflexivity|exact Hnodup].
Qed.

Lemma entries_plain (answers : AnswerSet) :
  Forall (fun e => arrayIndex (fst e) = None) answers ->
  entries answers = answers.
Proof.
  unfold entries. induction 1 as [|e rest He Hrest IH]; simpl; [reflexivity|].
  rewrite He.
  assert (Hnone : fold_right
            (fun e acc =>
               match arrayIndex (fst e) with
               | Some n => insertIndexed n e acc
               | None => acc
               end) [] rest = []).
  { clear IH. induction Hrest as [|e' rest' He' _ IH']; simpl; [reflexivity|].
    now rewrite He'. }
  rewrite Hnone in *. simpl in *. now rewrite IH.
Qed.

(** X12.  When every question of a chain is answered, the derived keys
    are pairwise different and none of them is [__proto__], the tool
    returns the complete result whose answers are the key and value pairs
    of the questions, in the order of the questions, and whose count is the
    number of questions.  When besides no key is an array index, the output
    is one line [key: value] per question, in that order. *)
Theorem chain_with_distinct_keys (runner : Runner) (platform : string)
    (questions : list Question) (tr tr' : Trace) (kvs : list (string * string)) :
  Answered runner platform (List.length questions) 0 questions tr kvs tr' ->
  NoDup (map fst kvs) ->
  ~ In protoKey (map fst kvs) ->
  handleChainedQuestions runner platform questions tr =
  (Ok {| success := true;
         output := Some (formattedOutput kvs);
         error := None;
         data := Some (AnswersData kvs (List.length questions)) |},
   tr')
  /\ (Forall (fun kv => arrayIndex (fst kv) = None) kvs ->
      formattedOutput kvs = Js.join nl (map outputLine kvs)).
Proof.
  intros Hrun Hnodup Hproto. split.
  - unfold handleChainedQuestions, bind.
    rewrite (chainLoop_Answered _ _ _ _ _ _ _ _ Hrun).
    rewrite (collect_distinct kvs Hproto [] Hnodup). reflexivity.
  - intros Hplain. unfold formattedOutput. now rewrite (entries_plain kvs Hplain).
Qed.

Lemma chain_with_distinct_keys_example :
  exists tr',
    handleChainedQuestions (scripted [prints "Ana"; prints "a@x.com"]) "darwin"
      [ask "What is your name?"; ask "Enter your email:"] [] =
    (Ok {| success := true;
           output := Some ("name: Ana" ++ nl ++ "email: a@x.com");
           error := None;
           data := Some (AnswersData [("name", "Ana"); ("email", "a@x.com")] 2) |},
     tr').
Proof.
  eexists. eapply proj1.
  eapply (chain_with_distinct_keys
            (scripted [prints "Ana"; prints "a@x.com"]) "darwin"
            [ask "What is your name?"; ask "Enter your email:"] [] _
            [("name", "Ana"); ("email", "a@x.com")]).
  - eapply Answered_cons; [reflexivity|vm_compute; reflexivity|].
    eapply Answered_cons; [reflexivity|vm_compute; reflexivity|].
    apply Answered_nil.
  - repeat constructor; simpl; intuition discriminate.
  - simpl. intuition discriminate.
Defined.

Lemma setAnswer_length (key value : string) (answers : AnswerSet) :
  List.length (setAnswer key value answers) <= S (List.length answers).
Proof.
  unfold setAnswer. destruct (String.eqb key protoKey); [lia|].
  induction answers as [|[k v] rest IH]; simpl; [lia|].
  destruct (String.eqb k key); simpl; lia.
Qed.

Lemma collect_length (kvs : list (string * string)) :
  forall answers : AnswerSet,
    List.length (collect kvs answers) <= List.length answers + List.length kvs.
Proof.
  induction kvs as [|[k v] kvs IH]; intros answers; simpl; [lia|].
  specialize (IH (setAnswer k v answers)).
  pose proof (setAnswer_length k v answers). lia.
Qed.

Lemma Answered_pairs (runner : Runner) (platform : string) (n i : nat)
    (questions : list Question) (tr tr' : Trace) (kvs : list (string * string)) :
  Answered runner platform n i questions tr kvs tr' ->
  List.length kvs = List.length questions.
Proof. induction 1; simpl; congruence. Qed.

(** X13.  A complete result never holds more answers than the chain has
    questions, and its [questionCount] is the number of questions asked,
    not the number of answers kept: every collision of derived keys costs
    one answer. *)
Theorem answers_at_most_questions (runner : Runner) (platform : string)
    (questions : list Question) (tr tr' : Trace) (result : ToolResult)
    (answers : AnswerSet) (count : nat) :
  handleChainedQuestions runner platform questions tr = (Ok result, tr') ->
  data result = Some (AnswersData answers count) ->
  count = List.length questions /\ List.length answers <= count.
Proof.
  unfold handleChainedQuestions, bind.
  destruct (chainLoop runner platform (List.length questions) 0 questions [] tr)
    as [[[answers1|result1]|e] tr1] eqn:Hloop; [| |discriminate].
  - intros [= <- _] [= <- <-]. split; [reflexivity|].
    destruct (chainLoop_Continue _ _ _ _ _ _ _ _ _ Hloop) as (kvs & Hrun & ->).
    pose proof (collect_length kvs []) as Hlen.
    rewrite (Answered_pairs _ _ _ _ _ _ _ _ Hrun) in Hlen. simpl in Hlen. exact Hlen.
  - intros [= <- _] Hdata.
    destruct (chainLoop_Return _ _ _ _ _ _ _ _ _ Hloop)
      as [Hnone|(before & kvs & tr2 & Hrun & ->)].
    + rewrite Hnone in Hdata. discriminate.
    + discriminate.
Qed.

Lemma answers_at_most_questions_example :
  2 = List.length [ask "Your name?"; ask "Pet name?"]
  /\ List.length [("name", "Rex")] <= 2.
Proof.
  apply (answers_at_most_questions (scripted [prints "Ana"; prints "Rex"]) "darwin"
           [ask "Your name?"; ask "Pet name?"] []
           (snd (handleChainedQuestions (scripted [prints "Ana"; prints "Rex"]) "darwin"
                   [ask "Your name?"; ask "Pet name?"] []))
           (completed [("name", "Rex")] 2) [("name", "Rex")] 2);
    reflexivity.
Defined.

(** ** More on [generateAnswerKey] *)

Lemma isWordChar_toLowerChar (c : ascii) :
  Js.isWordChar (Js.toLowerChar c) = Js.isWordChar c.
Proof. each_ascii c. Qed.

Lemma canonicalize_toLowerChar (c : ascii) :
  Js.canonicalize (Js.toLowerChar c) = Js.canonicalize c.
Proof. each_ascii c. Qed.

Lemma toLowerChar_idempotent (c : ascii) :
  Js.toLowerChar (Js.toLowerChar c) = Js.toLowerChar c.
Proof. each_ascii c. Qed.

Lemma toLowerCase_idempotent (s : string) :
  Js.toLowerCase (Js.toLowerCase s) = Js.toLowerCase s.
Proof.
  induction s as [|c s IH]; simpl; [reflexivity|].
  now rewrite toLowerChar_idempotent, IH.
Qed.

Lemma toLowerCase_length (s : string) :
  String.length (Js.toLowerCase s) = String.length s.
Proof. induction s as [|c s IH]; simpl; [reflexivity|now rewrite IH]. Qed.

Lemma take_toLowerCase (n : nat) :
  forall s, Regex.take n (Js.toLowerCase s) = Js.toLowerCase (Regex.take n s).
Proof.
  induction n as [|n IH]; intros [|c s]; simpl; try reflexivity.
  now rewrite IH.
Qed.

Lemma consumed_toLowerCase (s rest : string) :
  consumed (Js.toLowerCase s) (Js.toLowerCase rest) = Js.toLowerCase (consumed s rest).
Proof.
  unfold consumed. now rewrite !toLowerCase_length, take_toLowerCase.
Qed.

Section LowerCase.

Local Abbreviation lower := Js.toLowerCase.
Local Abbreviation lowerCap := (option_map Js.toLowerCase).
Local Abbreviation lowerMatch := (option_map (option_map Js.toLowerCase)).

Lemma wordStar_lower (k k' : string -> option (option string)) :
  (forall s', k' (lower s') = lowerMatch (k s')) ->
  forall s, wordStar (lower s) k' = lowerMatch (wordStar s k).
Proof.
  intros Hk. induction s as [|c s IH]; simpl; [apply (Hk EmptyString)|].
  rewrite isWordChar_toLowerChar.
  destruct (Js.isWordChar c); [|apply (Hk (String c s))].
  rewrite IH. destruct (wordStar s k); [reflexivity|apply (Hk (String c s))].
Qed.

Lemma matchK_lower (r : regex) :
  forall (s : string) (cap : option string)
         (k k' : string -> option string -> option (option string)),
    (forall s' c, k' (lower s') (lowerCap c) = lowerMatch (k s' c)) ->
    matchK r (lower s) (lowerCap cap) k' = lowerMatch (matchK r s cap k).
Proof.
  induction r as [|c|r1 IH1 r2 IH2|r1 IH1 r2 IH2|r IH| |r IH]; intros s cap k k' Hk.
  - apply Hk.
  - destruct s as [|d s]; simpl; [reflexivity|].
    rewrite canonicalize_toLowerChar.
    destruct (Ascii.eqb _ _); [apply Hk|reflexivity].
  - simpl. apply IH1. intros s1 cap1. now apply IH2.
  - simpl. rewrite (IH1 s cap k k' Hk).
    destruct (matchK r1 s cap k); [reflexivity|now apply IH2].
  - simpl. rewrite (IH s cap k k' Hk).
    destruct (matchK r s cap k); [reflexivity|apply Hk].
  - destruct s as [|c s]; simpl; [reflexivity|].
    rewrite isWordChar_toLowerChar.
    destruct (Js.isWordChar c); [|reflexivity].
    apply wordStar_lower. intros s'. apply Hk.
  - simpl. apply IH. intros s' c.
    rewrite consumed_toLowerCase.
    apply (Hk s' (Some (consumed s s'))).
Qed.

Lemma exec_lower (r : regex) (s : string) :
  exec r (lower s) = lowerMatch (exec r s).
Proof.
  induction s as [|c s IH].
  - simpl. change EmptyString with (lower EmptyString) at 1.
    change None with (lowerCap None) at 1.
    rewrite (matchK_lower r EmptyString None (fun _ cap => Some cap)
               (fun _ cap => Some cap)) by reflexivity.
    destruct (matchK r EmptyString None _); reflexivity.
  - change (exec r (lower (String c s)))
      with (match matchK r (lower (String c s)) (lowerCap None) (fun _ cap => Some cap) with
            | Some cap => Some cap
            | None => exec r (lower s)
            end).
    rewrite (matchK_lower r (String c s) None (fun _ cap => Some cap)
               (fun _ cap => Some cap)) by reflexivity.
    simpl. destruct (matchK r (String c s) None _); [reflexivity|exact IH].
Qed.

Lemma firstPatternKey_lower (ps : list regex) (prompt : string) :
  firstPatternKey ps (lower prompt) = firstPatternKey ps prompt.
Proof.
  induction ps as [|p ps IH]; simpl; [reflexivity|].
  rewrite exec_lower.
  destruct (exec p prompt) as [[g|]|]; simpl; try exact IH.
  rewrite truthy_toLowerCase, toLowerCase_idempotent.
  destruct (Js.truthy g); [reflexivity|exact IH].
Qed.

End LowerCase.

(** X14.  For prompts made of the code units 0..255 (ASCII and Latin-1),
    the derived key does not depend on the case of the prompt: a prompt and
    its lower-case form get the same key at every index.  (Above these code
    units it can: the Kelvin sign U+212A is no word character for the
    patterns, and it lower-cases to [k], which is one.) *)
Theorem generateAnswerKey_ignores_case (prompt : string) (index : nat) :
  generateAnswerKey (Js.toLowerCase prompt) index = generateAnswerKey prompt index.
Proof.
  unfold generateAnswerKey.
  rewrite firstPatternKey_lower, toLowerCase_idempotent. reflexivity.
Qed.

Lemma noSpace_app (s1 s2 : string) :
  noSpace (s1 ++ s2) = noSpace s1 && noSpace s2.
Proof.
  induction s1 as [|c s1 IH]; simpl; [reflexivity|].
  now rewrite IH, Bool.andb_assoc.
Qed.

Lemma word_is_no_space (c : ascii) :
  Js.isWordChar c = true -> Js.isSpaceChar (Js.toLowerChar c) = false.
Proof.
  destruct c as [[|] [|] [|] [|] [|] [|] [|] [|]];
    (reflexivity || discriminate).
Qed.

Lemma allWord_noSpace (s : string) :
  allWord s = true -> noSpace (Js.toLowerCase s) = true.
Proof.
  induction s as [|c s IH]; simpl; [reflexivity|].
  intros H. apply Bool.andb_true_iff in H as [Hc Hs].
  now rewrite (word_is_no_space c Hc), IH.
Qed.

Lemma length_append (s1 s2 : string) :
  String.length (s1 ++ s2) = String.length s1 + String.length s2.
Proof. induction s1 as [|c s1 IH]; simpl; [reflexivity|now rewrite IH]. Qed.

Lemma consumed_app (w rest : string) :
  consumed (w ++ rest) rest = w.
Proof.
  unfold consumed. rewrite length_append.
  replace (String.length w + String.length rest - String.length rest)
    with (String.length w) by lia.
  induction w as [|c w IH]; simpl; [now destruct rest|now rewrite IH].
Qed.

Lemma wordStar_spec {A : Type} (k : string -> option A) (x : A) :
  forall s,
    wordStar s k = Some x ->
    exists w rest, s = w ++ rest /\ allWord w = true /\ k rest = Some x.
Proof.
  induction s as [|c s IH]; simpl.
  - intros H. now exists EmptyString, EmptyString.
  - destruct (Js.isWordChar c) eqn:Hc.
    + destruct (wordStar s k) as [y|] eqn:Hs.
      * intros [= ->]. destruct (IH eq_refl) as (w & rest & -> & Hw & Hk).
        exists (String c w), rest. simpl. now rewrite Hc, Hw.
      * intros H. now exists EmptyString, (String c s).
    + intros H. now exists EmptyString, (String c s).
Qed.

Lemma wordPlus_spec {A : Type} (k : string -> option A) (x : A) (s : string) :
  wordPlus s k = Some x ->
  exists w rest, s = w ++ rest /\ allWord w = true /\ k rest = Some x.
Proof.
  destruct s as [|c s]; simpl; [discriminate|].
  destruct (Js.isWordChar c) eqn:Hc; [|discriminate].
  intros H. destruct (wordStar_spec k x s H) as (w & rest & -> & Hw & Hk).
  exists (String c w), rest. simpl. now rewrite Hc, Hw.
Qed.

(** With groups that are all [(\w+)], the capture a match hands on is the
    one it was given or a text of word characters. *)
Lemma matchK_groups {A : Type} (r : regex) :
  groupsAreWords r = true ->
  forall (s : string) (cap : option string)
         (k : string -> option string -> option A) (x : A),
    matchK r s cap k = Some x ->
    exists rest cap',
      k rest cap' = Some x
      /\ (cap' = cap \/ exists w, cap' = Some w /\ allWord w = true).
Proof.
  induction r as [|c|r1 IH1 r2 IH2|r1 IH1 r2 IH2|r IH| |r IH];
    intros Hg s cap k x; simpl.
  - intros H. exists s, cap. auto.
  - destruct s as [|d s]; [discriminate|].
    destruct (Ascii.eqb _ _); [|discriminate].
    intros H. exists s, cap. auto.
  - simpl in Hg. apply Bool.andb_true_iff in Hg as [Hg1 Hg2].
    intros H. destruct (IH1 Hg1 _ _ _ _ H) as (s1 & cap1 & H1 & Hcap1).
    destruct (IH2 Hg2 _ _ _ _ H1) as (s2 & cap2 & H2 & Hcap2).
    exists s2, cap2. split; [exact H2|].
    destruct Hcap2 as [->|Hw]; [exact Hcap1|now right].
  - simpl in Hg. apply Bool.andb_true_iff in Hg as [Hg1 Hg2].
    destruct (matchK r1 s cap k) as [y|] eqn:H1.
    + intros [= ->]. now apply (IH1 Hg1 _ _ _ _ H1).
    + now apply IH2.
  - simpl in Hg. destruct (matchK r s cap k) as [y|] eqn:H1.
    + intros [= ->]. now apply (IH Hg _ _ _ _ H1).
    + intros H. exists s, cap. auto.
  - intros H. destruct (wordPlus_spec _ _ _ H) as (w & rest & -> & Hw & Hk).
    exists rest, cap. auto.
  - destruct r; try discriminate Hg. simpl.
    intros H. destruct (wordPlus_spec _ _ _ H) as (w & rest & -> & Hw & Hk).
    rewrite consumed_app in Hk. exists rest, (Some w). split; [exact Hk|].
    right. now exists w.
Qed.

Lemma exec_groups (r : regex) (g : string) :
  groupsAreWords r = true ->
  forall s, exec r s = Some (Some g) -> allWord g = true.
Proof.
  intros Hg. induction s as [|c s IH]; simpl.
  - destruct (matchK r EmptyString None (fun _ cap => Some cap)) as [cap|] eqn:Hm;
      [|discriminate].
    intros [= ->].
    destruct (matchK_groups r Hg _ _ _ _ Hm) as (rest & cap' & Hk & Hcap).
    injection Hk as ->.
    destruct Hcap as [H|(w & [= ->] & Hw)]; [discriminate|exact Hw].
  - destruct (matchK r (String c s) None (fun _ cap => Some cap)) as [cap|] eqn:Hm;
      [|exact IH].
    intros [= ->].
    destruct (matchK_groups r Hg _ _ _ _ Hm) as (rest & cap' & Hk & Hcap).
    injection Hk as ->.
    destruct Hcap as [H|(w & [= ->] & Hw)]; [discriminate|exact Hw].
Qed.

Lemma firstPatternKey_word (ps : list regex) (prompt key : string) :
  forallb groupsAreWords ps = true ->
  firstPatternKey ps prompt = Some key ->
  exists g, key = Js.toLowerCase g /\ allWord g = true.
Proof.
  induction ps as [|p ps IH]; simpl; [discriminate|].
  intros Hg. apply Bool.andb_true_iff in Hg as [Hp Hps].
  destruct (exec p prompt) as [[g|]|] eqn:He; try (now apply IH).
  destruct (Js.truthy g); [|now apply IH].
  intros [= <-]. exists g. split; [reflexivity|].
  now apply (exec_groups p g Hp prompt).
Qed.

Lemma splitSpacesFrom_noSpace (s : string) :
  forall (cur : string) (inRun : bool),
    noSpace cur = true ->
    Forall (fun w => noSpace w = true) (Js.splitSpacesFrom s cur inRun).
Proof.
  induction s as [|c s IH]; intros cur inRun Hcur; simpl.
  - now constructor.
  - destruct (Js.isSpaceChar c) eqn:Hc.
    + destruct inRun; [now apply IH|].
      constructor; [exact Hcur|now apply IH].
    + apply IH. rewrite noSpace_app, Hcur. simpl. now rewrite Hc.
Qed.

Lemma digits_noSpace (d : Decimal.uint) :
  noSpace (NilEmpty.string_of_uint d) = true.
Proof. induction d; simpl; auto. Qed.

(** X15.  A derived key never contains white space, whatever the prompt
    and the index: it is one word of the prompt, or [answer] and a
    number. *)
Theorem generateAnswerKey_has_no_space (prompt : string) (index : nat) :
  noSpace (generateAnswerKey prompt index) = true.
Proof.
  unfold generateAnswerKey.
  destruct (firstPatternKey patterns prompt) as [key|] eqn:Hk.
  - destruct (firstPatternKey_word patterns prompt key eq_refl Hk) as (g & -> & Hg).
    now apply allWord_noSpace.
  - assert (Hfallback : noSpace ("answer" ++ Js.ofNat (index + 1)) = true).
    { rewrite noSpace_app. unfold Js.ofNat. now rewrite digits_noSpace. }
    destruct (find significant (Js.splitSpaces (Js.toLowerCase prompt))) as [w|] eqn:Hf;
      simpl; [|exact Hfallback].
    destruct (Js.truthy w); [|exact Hfallback].
    apply List.find_some in Hf as [Hin _].
    pose proof (splitSpacesFrom_noSpace (Js.toLowerCase prompt) EmptyString false eq_refl)
      as Hall.
    rewrite List.Forall_forall in Hall. now apply Hall.
Qed.

(** ** The [password] field of a chained question *)

Lemma questionInputType_withPassword (password : option bool) (question : Question) :
  q_type question <> Some EmptyString ->
  questionInputType (withPassword password question) = questionInputType question.
Proof.
  unfold questionInputType, inputTypeOf. simpl.
  destruct (q_type question) as [[|c t]|]; simpl; intros H; try reflexivity.
  now contradiction H.
Qed.

Lemma questionStep_withPassword (runner : Runner) (platform : string) (n i : nat)
    (password : option bool) (question : Question) (answers : AnswerSet) :
  q_type question <> Some EmptyString ->
  questionStep runner platform n i (withPassword password question) answers =
  questionStep runner platform n i question answers.
Proof.
  intros Ht. unfold questionStep.
  rewrite (questionInputType_withPassword password question Ht). reflexivity.
Qed.

Lemma chainLoop_withPassword (runner : Runner) (platform : string) (n : nat)
    (password : option bool) (questions : list Question) :
  Forall (fun q => q_type q <> Some EmptyString) questions ->
  forall (i : nat) (answers : AnswerSet) (tr : Trace),
    chainLoop runner platform n i (map (withPassword password) questions) answers tr =
    chainLoop runner platform n i questions answers tr.
Proof.
  induction 1 as [|q rest Hq _ IH]; intros i answers tr; simpl; [reflexivity|].
  unfold bind. rewrite (questionStep_withPassword _ _ _ _ _ _ _ Hq).
  destruct (questionStep runner platform n i q answers tr) as [[[a|r]|e] tr1];
    [apply IH|reflexivity|reflexivity].
Qed.

(** X16.  In a chain the [password] field of a question decides nothing
    unless its [type] is the empty string: [type] defaults to [text]
    before the input type is computed, so a question that only says
    [password: true] is shown unmasked.  Replacing the [password] field of
    every question changes neither the result nor the processes started. *)
Theorem chain_ignores_password_field (runner : Runner) (platform : string)
    (password : option bool) (questions : list Question) (tr : Trace) :
  Forall (fun q => q_type q <> Some EmptyString) questions ->
  handleChainedQuestions runner platform (map (withPassword password) questions) tr =
  handleChainedQuestions runner platform questions tr.
Proof.
  intros Ht. unfold handleChainedQuestions, bind.
  rewrite List.length_map, (chainLoop_withPassword _ _ _ _ _ Ht). reflexivity.
Qed.

Lemma chain_ignores_password_field_example :
  handleChainedQuestions (scripted [prints "hunter2"]) "darwin"
    (map (withPassword None)
       [mkQuestion (Some "Enter your password:") None None None (Some true) None]) [] =
  handleChainedQuestions (scripted [prints "hunter2"]) "darwin"
    [mkQuestion (Some "Enter your password:") None None None (Some true) None] [].
Proof.
  apply (chain_ignores_password_field (scripted [prints "hunter2"]) "darwin" None
           [mkQuestion (Some "Enter your password:") None None None (Some true) None] []).
  repeat constructor. discriminate.
Defined.

(** ** Round trips of the escapers *)

(** X17.  The AppleScript escaper loses nothing but line feeds: for every
    text, what the shell and then AppleScript read back from the escaped
    text is the text with each line feed replaced by a space. *)
Theorem applescript_escaper_round_trip (s : string) :
  readOsascript (escapeAppleScript s) = Some (foldNewlines s).
Proof. apply escapeAppleScript_round_trip. Qed.

(** X18.  The PowerShell escaper is exact on texts made of the code units
    0..255: a PowerShell single-quoted literal holding the escaped text
    reads back as the text itself, line feeds included.  (The typographic
    quotes U+2018 to U+201B, which PowerShell also reads as single quotes
    and the escaper does not double, are above these code units.) *)
Theorem powershell_escaper_round_trip (s : string) :
  readPowerShell (escapePowerShell s) = Some s.
Proof.
  unfold escapePowerShell. induction s as [|c s IH]; simpl; [reflexivity|].
  destruct (Ascii.eqb_spec c Js.squote) as [->|Hne]; simpl.
  - now rewrite IH.
  - apply Ascii.eqb_neq in Hne. now rewrite Hne, IH.
Qed.

(** X19.  The shell escaper is exact on texts without backslash, dollar
    sign and backquote: inside double quotes such a text reads back as
    itself, its double quotes and line feeds included. *)
Theorem shell_escaper_round_trip (s : string) :
  lacks Js.backslash s = true ->
  lacks dollar s = true ->
  lacks backquote s = true ->
  readShellDouble (escapeShell s) = Some s.
Proof.
  unfold escapeShell. induction s as [|c s IH]; simpl; [reflexivity|].
  intros Hb Hd Hq.
  apply Bool.andb_true_iff in Hb as [Hb Hbs].
  apply Bool.andb_true_iff in Hd as [Hd Hds].
  apply Bool.andb_true_iff in Hq as [Hq Hqs].
  apply Bool.negb_true_iff in Hb, Hd, Hq.
  specialize (IH Hbs Hds Hqs).
  destruct (Ascii.eqb_spec c Js.dquote) as [->|Hne]; simpl in IH |- *.
  - now rewrite IH.
  - apply Ascii.eqb_neq in Hne. rewrite Hb, Hne, Hd, Hq. simpl.
    now rewrite IH.
Qed.

Lemma shell_escaper_round_trip_example :
  readShellDouble (escapeShell ("Say " ++ Q ++ "hi" ++ Q ++ nl ++ "twice"))
  = Some ("Say " ++ Q ++ "hi" ++ Q ++ nl ++ "twice").
Proof.
  apply (shell_escaper_round_trip ("Say " ++ Q ++ "hi" ++ Q ++ nl ++ "twice"));
    reflexivity.
Defined.

(** ** The terminal dropdown *)

Lemma lacks_app (c : ascii) (s1 s2 : string) :
  lacks c (s1 ++ s2) = lacks c s1 && lacks c s2.
Proof.
  induction s1 as [|d s1 IH]; simpl; [reflexivity|].
  now rewrite IH, Bool.andb_assoc.
Qed.

Lemma splitCharFrom_lacks (c : ascii) (s : string) :
  forall cur : string,
    lacks c cur = true ->
    Forall (fun piece => lacks c piece = true) (Js.splitCharFrom c s cur).
Proof.
  induction s as [|d s IH]; intros cur Hcur; simpl.
  - now constructor.
  - destruct (Ascii.eqb d c) eqn:Hd.
    + constructor; [exact Hcur|now apply IH].
    + apply IH. rewrite lacks_app, Hcur. simpl. now rewrite Hd.
Qed.

Lemma last_Forall {A : Type} (P : A -> Prop) (l : list A) (d : A) :
  Forall P l -> P d -> P (last l d).
Proof.
  induction 1 as [|x l Hx Hl IH]; intros Hd; simpl; [exact Hd|].
  destruct l; [exact Hx|now apply IH].
Qed.

(** X20.  When the terminal dropdown resolves, its answer is the last
    line of what the script printed on its standard output, trimmed: the
    piece after the last line feed of the trimmed output (all of it when it
    has none).  So the answer never contains a line feed. *)
Theorem terminal_dropdown_answer_is_one_line (runner : Runner) (prompt : string)
    (options : list string) (defaultValue : option string) (tr : Trace)
    (out value : string) :
  (forall inv : Invocation, stdout (runner tr inv) = out) ->
  fst (showTerminalDropdown runner prompt options defaultValue tr) = Ok value ->
  value = last (Js.splitChar Js.newline (Js.trim out)) EmptyString
  /\ lacks Js.newline value = true.
Proof.
  intros Hout.
  unfold showTerminalDropdown, tryCatch, bind, execAsync. cbv zeta.
  destruct (Nat.eqb _ 0); [|discriminate].
  rewrite Hout. simpl. intros [= <-]. split; [reflexivity|].
  apply (last_Forall (fun piece => lacks Js.newline piece = true)); [|reflexivity].
  now apply splitCharFrom_lacks.
Qed.

Lemma terminal_dropdown_answer_is_one_line_example :
  "b" = last (Js.splitChar Js.newline
                (Js.trim ("Pick" ++ nl ++ "1) a" ++ nl ++ "2) b" ++ nl ++ "b" ++ nl)))
          EmptyString
  /\ lacks Js.newline "b" = true.
Proof.
  apply (terminal_dropdown_answer_is_one_line
           (scripted [prints ("Pick" ++ nl ++ "1) a" ++ nl ++ "2) b" ++ nl ++ "b" ++ nl)])
           "Pick" ["a"; "b"] None []
           ("Pick" ++ nl ++ "1) a" ++ nl ++ "2) b" ++ nl ++ "b" ++ nl) "b").
  - intros inv. reflexivity.
  - vm_compute. reflexivity.
Defined.
